(** * utf-utils: a shallow embedding of [include/utf-utils/utf_utils.hpp]

    The header converts between UTF-8, UTF-16 and UTF-32 buffers.  Code
    units are modelled as [Z] with every C++ integer conversion written
    out ([to_uint8], [to_int8], ...); a buffer is a [list Z]; a caller
    owned output string is passed in and returned, [push_back] being an
    append at the end and [clear] the empty list.

    [std::basic_string_view::operator[]] has no bounds check.  A read is
    modelled by [nth_error]; a conversion returns [None] when it reads
    outside its input, and [Some (status, output)] otherwise. *)

From Stdlib Require Import ZArith List Bool Lia.
Import ListNotations.
Local Open Scope Z_scope.

(** ** Integer conversions of the C++ abstract machine (C++20: modular) *)

Definition to_uint8  (z : Z) : Z := z mod 2^8.
Definition to_uint16 (z : Z) : Z := z mod 2^16.
Definition to_uint32 (z : Z) : Z := z mod 2^32.
Definition to_int8   (z : Z) : Z := (z + 2^7)  mod 2^8  - 2^7.
Definition to_int16  (z : Z) : Z := (z + 2^15) mod 2^16 - 2^15.
Definition to_int32  (z : Z) : Z := (z + 2^31) mod 2^32 - 2^31.

Definition is_char8  (z : Z) : Prop := 0 <= z < 2^8.
Definition is_char16 (z : Z) : Prop := 0 <= z < 2^16.

(** ** [enum class status_e : int8_t] *)

Inductive status_e : Set :=
| trailing_without_leading
| character_cut_off
| non_standard_encoding
| undefined_error
| success.

Definition status_value (s : status_e) : Z :=
  match s with
  | trailing_without_leading => -3
  | character_cut_off        => -2
  | non_standard_encoding    => -1
  | undefined_error          => 0
  | success                  => 1
  end.

(** [a < b] on the enumeration compares the underlying values. *)
Definition status_lt (a b : status_e) : bool :=
  status_value a <? status_value b.

(** ** [namespace utf::constants] *)

Module constants.
Definition high_surrogate_start       : Z := 0xD800.
Definition high_surrogate_marker      : Z := to_uint8 (Z.shiftr 0xD800 10).
Definition low_surrogate_start        : Z := 0xDC00.
Definition low_surrogate_marker       : Z := to_uint8 (Z.shiftr 0xDC00 10).
Definition low_surrogate_end          : Z := 0xDFFF.
Definition supplementary_plane_offset : Z := 0x10000.
Definition supplementary_plane_end    : Z := 0x110000.
Definition one_byte_boundary          : Z := 0x007F.
Definition two_byte_boundary          : Z := 0x07FF.
Definition three_byte_boundary        : Z := 0xFFFF.
Definition four_byte_boundary         : Z := 0x10FFFF.
Definition trailing_byte_marker       : Z := 2.   (* 0b10    *)
Definition double_byte_marker         : Z := 6.   (* 0b110   *)
Definition triple_byte_marker         : Z := 14.  (* 0b1110  *)
Definition quadruple_byte_marker      : Z := 30.  (* 0b11110 *)
Definition byte_order_mark            : Z := 0xFEFF.
Definition reversed_byte_order_mark   : Z := 0xFFFE.
End constants.
Import constants.

(** ** Utilities *)

Inductive endianness_e : Set :=
| unspecified
| big_endian
| little_endian.

Definition is_little_endian (e : endianness_e) : bool :=
  match e with little_endian => true | _ => false end.

Definition is_high_surrogate (ch : Z) : bool :=
  high_surrogate_marker =? Z.shiftr ch 10.

Definition is_low_surrogate (ch : Z) : bool :=
  low_surrogate_marker =? Z.shiftr ch 10.

Definition is_correct_code_point (ch : Z) : bool :=
  (ch <? high_surrogate_start) && (ch >? low_surrogate_end).

(** [utf8_has_bom] reads [code_units[0..2]] through a raw pointer; [&&]
    evaluates left to right and stops at the first mismatch. *)
Definition utf8_has_bom (code_units : list Z) : option bool :=
  match nth_error code_units 0 with
  | None => None
  | Some c0 =>
    if c0 =? 0xEF then
      match nth_error code_units 1 with
      | None => None
      | Some c1 =>
        if c1 =? 0xBB then
          match nth_error code_units 2 with
          | None => None
          | Some c2 => Some (c2 =? 0xBF)
          end
        else Some false
      end
    else Some false
  end.

Definition utf16_bom (ch : Z) : endianness_e :=
  if ch =? byte_order_mark then big_endian
  else if ch =? reversed_byte_order_mark then little_endian
  else unspecified.

(** Both bytes are stored in [int8_t], so each is sign extended when it is
    promoted back to [int]; the sum is narrowed to [char16_t]. *)
Definition utf16_reverse_endianness (ch : Z) : Z :=
  let first_byte  := to_int8 (Z.shiftr ch 8) in
  let second_byte := to_int8 (Z.land ch 0xFF) in
  to_uint16 (Z.shiftl second_byte 8 + first_byte).

(** Both words are stored in [int16_t] and compared, after promotion to
    [int], with the [uint16_t] marks 0xFEFF and 0xFFFE. *)
Definition utf32_bom (ch : Z) : endianness_e :=
  let first_word  := to_int16 (Z.land (Z.shiftr ch 16) 0xFFFF) in
  let second_word := to_int16 (Z.land ch 0xFFFF) in
  if (first_word =? 0) && (second_word =? byte_order_mark) then big_endian
  else if (first_word =? reversed_byte_order_mark) && (second_word =? 0)
       then little_endian
  else unspecified.

(** The [int] sum is narrowed to [char32_t] (two's complement wrap). *)
Definition utf32_reverse_endianness (ch : Z) : Z :=
  let first_byte  := to_int8 (Z.shiftr ch 24) in
  let second_byte := to_int8 (Z.land (Z.shiftr ch 16) 0xFF) in
  let third_byte  := to_int8 (Z.land (Z.shiftr ch 8) 0xFF) in
  let fourth_byte := to_int8 (Z.land ch 0xFF) in
  to_uint32 (Z.shiftl fourth_byte 24 + Z.shiftl third_byte 16
             + Z.shiftl second_byte 8 + first_byte).

(** ** Conversions

    A conversion returns the status together with the content of the
    caller's output string on return. *)

Definition returned : Type := status_e * list Z.

Definition push_back (s : list Z) (ch : Z) : list Z := s ++ [ch].

(** *** [utf8_to_utf32]

    The [for] loop over [index] is a recursion on the units from [index]
    on: [index < code_unit_count] is a non-empty remainder and each
    [++index >= code_unit_count] test is an empty one.  A leading byte
    0xF8..0xFF matches no branch and is stepped over. *)
Fixpoint utf8_to_utf32_loop (units utf32_s : list Z) : returned :=
  match units with
  | [] => (success, utf32_s)
  | this_code_unit :: units1 =>
    if Z.shiftr this_code_unit 7 =? 0 then
      utf8_to_utf32_loop units1 (push_back utf32_s this_code_unit)
    else if Z.shiftr this_code_unit 6 =? trailing_byte_marker then
      (trailing_without_leading, [])
    else if Z.shiftr this_code_unit 5 =? double_byte_marker then
      let first_bits := to_uint16 (Z.shiftl this_code_unit 6) in
      match units1 with
      | [] => (character_cut_off, [])
      | unit1 :: units2 =>
        let last_bits := to_uint16 (Z.land unit1 0x3F) in
        let code_point := to_uint16 (first_bits + last_bits) in
        utf8_to_utf32_loop units2 (push_back utf32_s code_point)
      end
    else if Z.shiftr this_code_unit 4 =? triple_byte_marker then
      let first_bits := to_uint16 (Z.shiftl (to_uint16 this_code_unit) 12) in
      match units1 with
      | [] => (character_cut_off, [])
      | unit1 :: units2 =>
        let middle_bits :=
          to_uint16 (Z.shiftl (to_uint16 (Z.land unit1 0x3F)) 6) in
        match units2 with
        | [] => (character_cut_off, [])
        | unit2 :: units3 =>
          let last_bits := to_uint16 (Z.land unit2 0x3F) in
          let code_point := to_uint16 (first_bits + middle_bits + last_bits) in
          utf8_to_utf32_loop units3 (push_back utf32_s code_point)
        end
      end
    else if Z.shiftr this_code_unit 3 =? quadruple_byte_marker then
      let first_bits := to_uint32 (Z.shiftl this_code_unit 18) in
      match units1 with
      | [] => (character_cut_off, [])
      | unit1 :: units2 =>
        let second_bits :=
          to_uint32 (Z.shiftl (to_uint32 (Z.land unit1 0x3F)) 12) in
        match units2 with
        | [] => (character_cut_off, [])
        | unit2 :: units3 =>
          let third_bits :=
            to_uint32 (Z.shiftl (to_uint32 (Z.land unit2 0x3F)) 6) in
          match units3 with
          | [] => (character_cut_off, [])
          | unit3 :: units4 =>
            let last_bits := to_uint32 (Z.land unit3 0x3F) in
            let code_point :=
              to_uint32 (first_bits + second_bits + third_bits + last_bits) in
            utf8_to_utf32_loop units4 (push_back utf32_s code_point)
          end
        end
      end
    else utf8_to_utf32_loop units1 utf32_s
  end.

Definition utf8_to_utf32 (utf8_sv utf32_s : list Z)
    (comply_with_standard : bool) : option returned :=
  let code_unit_count := Z.of_nat (length utf8_sv) in
  if code_unit_count >=? 3 then
    match utf8_has_bom utf8_sv with
    | None => None
    | Some has_bom =>
      if has_bom
      then Some (utf8_to_utf32_loop (skipn 3 utf8_sv)
                                    (push_back utf32_s byte_order_mark))
      else Some (utf8_to_utf32_loop utf8_sv utf32_s)
    end
  else Some (utf8_to_utf32_loop utf8_sv utf32_s).

(** *** [utf16_to_utf32]

    The iterator loop is a recursion on the units from [character_it] on,
    with [was_double_character] carried along. *)
Fixpoint utf16_to_utf32_loop (reverse comply_with_standard : bool)
    (units : list Z) (was_double_character : bool) (utf32_s : list Z)
    : returned :=
  match units with
  | [] => (success, utf32_s)
  | unit0 :: units1 =>
    if was_double_character then
      utf16_to_utf32_loop reverse comply_with_standard units1 false utf32_s
    else
      let this_character :=
        if reverse then utf16_reverse_endianness unit0 else unit0 in
      (* [None] when [exists_next_character] is false *)
      let next_character :=
        match units1 with
        | [] => None
        | unit1 :: _ =>
          Some (if reverse then utf16_reverse_endianness unit1 else unit1)
        end in
      if is_high_surrogate this_character then
        match next_character with
        | None =>
          if comply_with_standard then (non_standard_encoding, [])
          else utf16_to_utf32_loop reverse comply_with_standard units1 false
                 (push_back utf32_s this_character)
        | Some next_character =>
          if negb (is_low_surrogate next_character) then
            if comply_with_standard then (non_standard_encoding, [])
            else utf16_to_utf32_loop reverse comply_with_standard units1 false
                   (push_back utf32_s this_character)
          else
            let high_code_point :=
              to_uint32 (Z.shiftl (this_character - high_surrogate_start) 10) in
            let low_code_point :=
              to_uint16 (next_character - low_surrogate_start) in
            let code_point :=
              to_uint32 (high_code_point + low_code_point
                         + supplementary_plane_offset) in
            utf16_to_utf32_loop reverse comply_with_standard units1 true
              (push_back utf32_s code_point)
        end
      else utf16_to_utf32_loop reverse comply_with_standard units1 false
             (push_back utf32_s this_character)
  end.

Definition utf16_to_utf32 (utf16_sv utf32_s : list Z)
    (comply_with_standard : bool) : option returned :=
  match nth_error utf16_sv 0 with
  | None => None
  | Some front =>
    let reverse := is_little_endian (utf16_bom front) in
    Some (utf16_to_utf32_loop reverse comply_with_standard utf16_sv false
            utf32_s)
  end.

(** *** [utf32_to_utf8]

    Every value pushed is narrowed to [char8_t]. *)
Fixpoint utf32_to_utf8_loop (reverse comply_with_standard : bool)
    (units utf8_s : list Z) : returned :=
  match units with
  | [] => (success, utf8_s)
  | unit0 :: units1 =>
    let this_code_point :=
      if reverse then utf32_reverse_endianness unit0 else unit0 in
    if this_code_point >? four_byte_boundary then (undefined_error, [])
    else if this_code_point <=? one_byte_boundary then
      utf32_to_utf8_loop reverse comply_with_standard units1
        (push_back utf8_s (to_uint8 this_code_point))
    else if this_code_point <=? two_byte_boundary then
      let cp_16 := to_uint16 this_code_point in
      let first_5_bits := to_uint8 (Z.shiftr cp_16 6) in
      let last_6_bits  := to_uint8 (Z.land cp_16 0x3F) in
      utf32_to_utf8_loop reverse comply_with_standard units1
        (push_back
           (push_back utf8_s
              (to_uint8 (Z.shiftl double_byte_marker 5 + first_5_bits)))
           (to_uint8 (Z.shiftl trailing_byte_marker 6 + last_6_bits)))
    else if this_code_point <=? three_byte_boundary then
      let cp_16 := to_uint16 this_code_point in
      (* [a && b || c] parses as [(a && b) || c] *)
      let wrong_encoding :=
        (comply_with_standard && (cp_16 <? low_surrogate_start))
        || (cp_16 >? high_surrogate_start) in
      if wrong_encoding then (non_standard_encoding, [])
      else
        let first_4_bits  := to_uint8 (Z.shiftr cp_16 12) in
        let middle_6_bits := to_uint8 (Z.land (Z.shiftr cp_16 6) 0x3F) in
        let last_6_bits   := to_uint8 (Z.land cp_16 0x3F) in
        utf32_to_utf8_loop reverse comply_with_standard units1
          (push_back
             (push_back
                (push_back utf8_s
                   (to_uint8 (Z.shiftl triple_byte_marker 4 + first_4_bits)))
                (to_uint8 (Z.shiftl trailing_byte_marker 6 + middle_6_bits)))
             (to_uint8 (Z.shiftl trailing_byte_marker 6 + last_6_bits)))
    else if this_code_point <=? four_byte_boundary then
      let first_3_bits  := to_uint8 (Z.shiftr this_code_point 18) in
      let second_6_bits := to_uint8 (Z.land (Z.shiftr this_code_point 12) 0x3F) in
      let third_6_bits  := to_uint8 (Z.land (Z.shiftr this_code_point 6) 0x3F) in
      let last_6_bits   := to_uint8 (Z.land this_code_point 0x3F) in
      utf32_to_utf8_loop reverse comply_with_standard units1
        (push_back
           (push_back
              (push_back
                 (push_back utf8_s
                    (to_uint8 (Z.shiftl quadruple_byte_marker 5 + first_3_bits)))
                 (to_uint8 (Z.shiftl trailing_byte_marker 6 + second_6_bits)))
              (to_uint8 (Z.shiftl trailing_byte_marker 6 + third_6_bits)))
           (to_uint8 (Z.shiftl trailing_byte_marker 6 + last_6_bits)))
    else utf32_to_utf8_loop reverse comply_with_standard units1 utf8_s
  end.

Definition utf32_to_utf8 (utf32_sv utf8_s : list Z)
    (comply_with_standard : bool) : option returned :=
  match nth_error utf32_sv 0 with
  | None => None
  | Some front =>
    let reverse := is_little_endian (utf32_bom front) in
    Some (utf32_to_utf8_loop reverse comply_with_standard utf32_sv utf8_s)
  end.

(** *** [utf32_to_utf16] *)
Fixpoint utf32_to_utf16_loop (reverse comply_with_standard : bool)
    (units utf16_s : list Z) : returned :=
  match units with
  | [] => (success, utf16_s)
  | unit0 :: units1 =>
    let this_code_point :=
      if reverse then utf32_reverse_endianness unit0 else unit0 in
    if this_code_point >=? supplementary_plane_end then (undefined_error, [])
    else if negb (is_correct_code_point this_code_point)
            && comply_with_standard then (non_standard_encoding, [])
    else if this_code_point >=? supplementary_plane_offset then
      let surrogate_data :=
        to_int32 (to_uint32 (this_code_point - supplementary_plane_offset)) in
      let high_surrogate_data := to_int16 (Z.shiftr surrogate_data 10) in
      let low_surrogate_data  := to_int16 (Z.land surrogate_data 0x3FF) in
      let high_surrogate :=
        to_uint16 (high_surrogate_start + high_surrogate_data) in
      let low_surrogate :=
        to_uint16 (low_surrogate_start + low_surrogate_data) in
      utf32_to_utf16_loop reverse comply_with_standard units1
        (push_back (push_back utf16_s high_surrogate) low_surrogate)
    else
      let character := to_uint16 this_code_point in
      utf32_to_utf16_loop reverse comply_with_standard units1
        (push_back utf16_s character)
  end.

Definition utf32_to_utf16 (utf32_sv utf16_s : list Z)
    (comply_with_standard : bool) : option returned :=
  match nth_error utf32_sv 0 with
  | None => None
  | Some front =>
    let reverse := is_little_endian (utf32_bom front) in
    Some (utf32_to_utf16_loop reverse comply_with_standard utf32_sv utf16_s)
  end.

(** *** The chained conversions

    Each leg writes into a fresh local string; the caller's string is
    assigned only after both legs succeeded. *)
Definition utf8_to_utf16 (utf8_sv utf16_s : list Z)
    (comply_with_standard : bool) : option returned :=
  match utf8_to_utf32 utf8_sv [] comply_with_standard with
  | None => None
  | Some (status, code_points) =>
    if status_lt status success then Some (status, utf16_s)
    else
      match utf32_to_utf16 code_points [] comply_with_standard with
      | None => None
      | Some (status, result_string) =>
        if status_lt status success then Some (status, utf16_s)
        else Some (success, result_string)
      end
  end.

Definition utf16_to_utf8 (utf16_sv utf8_s : list Z)
    (comply_with_standard : bool) : option returned :=
  match utf16_to_utf32 utf16_sv [] comply_with_standard with
  | None => None
  | Some (status, code_points) =>
    if status_lt status success then Some (status, utf8_s)
    else
      match utf32_to_utf8 code_points [] comply_with_standard with
      | None => None
      | Some (status, result_string) =>
        if status_lt status success then Some (status, utf8_s)
        else Some (success, result_string)
      end
  end.

(** ** Notions the statements are written with *)

(** The byte swap of a 16-bit unit as the specification words it. *)
Definition byte_swap16 (u : Z) : Z :=
  Z.lor (Z.shiftl (Z.land u 0xFF) 8) (Z.shiftr u 8).

Definition in_surrogate_range (cp : Z) : Prop := 0xD800 <= cp <= 0xDFFF.

(** A code point of the lenient round trip: at most 0x10FFFF and outside
    the surrogate range. *)
Definition lenient_scalar (cp : Z) : Prop :=
  0 <= cp <= 0x10FFFF /\ ~ in_surrogate_range cp.

(** Code points whose UTF-8 form has one byte, or three bytes below the
    surrogate range. *)
Definition one_or_three_bytes (cp : Z) : Prop :=
  0 <= cp <= 0x7F \/ 0x800 <= cp <= 0xD7FF.

Definition round_trip_utf8 (code_points : list Z) : Prop :=
  exists units,
    utf32_to_utf8 code_points [] false = Some (success, units) /\
    utf8_to_utf32 units [] false = Some (success, code_points).

Definition round_trip_utf16 (code_points : list Z) : Prop :=
  exists units,
    utf32_to_utf16 code_points [] false = Some (success, units) /\
    utf16_to_utf32 units [] false = Some (success, code_points).

(** The value [utf16_to_utf32] works with for a unit of its input. *)
Definition utf16_unit_read (reverse : bool) (unit : Z) : Z :=
  if reverse then utf16_reverse_endianness unit else unit.




(** A returned pair whose output is empty when its status is a failure. *)
Definition cleared_on_failure (r : returned) : Prop :=
  status_lt (fst r) success = true -> snd r = [].

(** The units the lenient encoders are expected to emit for one code
    point: a surrogate pair above 0xFFFF, the value itself otherwise; one
    byte up to 0x7F, three bytes in the three-byte range. *)
Definition utf16_units (cp : Z) : list Z :=
  if cp >=? 0x10000
  then [0xD800 + (cp - 0x10000) / 2^10; 0xDC00 + (cp - 0x10000) mod 2^10]
  else [cp].

Definition utf8_units (cp : Z) : list Z :=
  if cp <=? 0x7F then [cp]
  else [0xE0 + cp / 2^12; 0x80 + (cp / 2^6) mod 64; 0x80 + cp mod 64].

(** The result of a conversion started on the prior content [prior], from
    its result [r] on an empty output: on [success] the fresh output comes
    after the prior content, on a failure the output is empty. *)
Definition onto (prior : list Z) (r : returned) : returned :=
  match fst r with
  | success => (success, prior ++ snd r)
  | status => (status, [])
  end.

(** The code points [utf32_to_utf8] goes through without a failure: one
    and two byte values, three byte values up to 0xD800 in lenient mode
    only, and the four byte values. *)
Definition utf8_accepts (comply_with_standard : bool) (cp : Z) : bool :=
  (cp <=? 0x7FF)
  || (negb comply_with_standard && (cp <=? 0xD800))
  || ((0x10000 <=? cp) && (cp <=? 0x10FFFF)).

(** A value between 0 and 0x10FFFF. *)
Definition in_unicode_range (cp : Z) : Prop := 0 <= cp <= 0x10FFFF.

(** * Properties *)

(** ** Arithmetic of the conversions *)

Lemma land_0x3F a : Z.land a 0x3F = a mod 64.
Proof. change 0x3F with (Z.ones 6). now rewrite Z.land_ones by lia. Qed.

Lemma land_0xFF a : Z.land a 0xFF = a mod 256.
Proof. change 0xFF with (Z.ones 8). now rewrite Z.land_ones by lia. Qed.

Lemma land_0x3FF a : Z.land a 0x3FF = a mod 1024.
Proof. change 0x3FF with (Z.ones 10). now rewrite Z.land_ones by lia. Qed.

Lemma land_0xFFFF a : Z.land a 0xFFFF = a mod 65536.
Proof. change 0xFFFF with (Z.ones 16). now rewrite Z.land_ones by lia. Qed.

Ltac unfold_constants :=
  unfold high_surrogate_start, high_surrogate_marker, low_surrogate_start,
    low_surrogate_marker, low_surrogate_end, supplementary_plane_offset,
    supplementary_plane_end, one_byte_boundary, two_byte_boundary,
    three_byte_boundary, four_byte_boundary, trailing_byte_marker,
    double_byte_marker, triple_byte_marker, quadruple_byte_marker,
    byte_order_mark, reversed_byte_order_mark in *.

Ltac reduce_pow :=
  repeat match goal with
    | |- context [Z.pow 2 ?n] =>
      let v := eval vm_compute in (Z.pow 2 n) in change (Z.pow 2 n) with v
    | H : context [Z.pow 2 ?n] |- _ =>
      let v := eval vm_compute in (Z.pow 2 n) in
      change (Z.pow 2 n) with v in H
    end.

(** Turns shifts, masks and conversions into [/], [*] and [mod]. *)
Ltac to_arith :=
  unfold_constants;
  unfold to_uint8, to_uint16, to_uint32, to_int8, to_int16, to_int32 in *;
  rewrite ?land_0x3F, ?land_0xFF, ?land_0x3FF, ?land_0xFFFF in *;
  rewrite ?Z.shiftr_div_pow2, ?Z.shiftl_mul_pow2 in * by lia;
  reduce_pow.

Ltac arith := to_arith; Z.to_euclidean_division_equations; lia.

Lemma to_int16_range z : - 2^15 <= to_int16 z < 2^15.
Proof. arith. Qed.

Lemma to_int8_range z : - 2^7 <= to_int8 z < 2^7.
Proof. arith. Qed.

(** The marks 0xFEFF and 0xFFFE do not fit [int16_t]: no 32-bit value is
    recognised as a byte-order mark. *)
Lemma utf32_bom_unspecified ch : utf32_bom ch = unspecified.
Proof.
  unfold utf32_bom.
  pose proof (to_int16_range (Z.land (Z.shiftr ch 16) 0xFFFF)) as H1.
  pose proof (to_int16_range (Z.land ch 0xFFFF)) as H2.
  replace (to_int16 (Z.land ch 0xFFFF) =? byte_order_mark) with false
    by (symmetry; apply Z.eqb_neq; unfold_constants; lia).
  replace (to_int16 (Z.land (Z.shiftr ch 16) 0xFFFF)
           =? reversed_byte_order_mark) with false
    by (symmetry; apply Z.eqb_neq; unfold_constants; lia).
  now rewrite andb_false_r.
Qed.

Lemma is_correct_code_point_false ch : is_correct_code_point ch = false.
Proof.
  unfold is_correct_code_point. unfold_constants.
  destruct (ch <? 0xD800) eqn:Hlt; [|reflexivity].
  apply Z.ltb_lt in Hlt. cbn [andb].
  destruct (ch >? 0xDFFF) eqn:Hgt; [|reflexivity].
  rewrite Z.gtb_ltb in Hgt. apply Z.ltb_lt in Hgt. lia.
Qed.


(** ** Strict UTF-16 encoding *)

Lemma utf32_to_utf16_unfold front rest utf16_s comply_with_standard :
  utf32_to_utf16 (front :: rest) utf16_s comply_with_standard
  = Some (utf32_to_utf16_loop false comply_with_standard (front :: rest)
            utf16_s).
Proof.
  unfold utf32_to_utf16. cbn [nth_error].
  now rewrite utf32_bom_unspecified.
Qed.

Lemma utf32_to_utf8_unfold front rest utf8_s comply_with_standard :
  utf32_to_utf8 (front :: rest) utf8_s comply_with_standard
  = Some (utf32_to_utf8_loop false comply_with_standard (front :: rest)
            utf8_s).
Proof.
  unfold utf32_to_utf8. cbn [nth_error].
  now rewrite utf32_bom_unspecified.
Qed.

(** C9: [is_correct_code_point] is false for every code point, so the
    strict [utf32_to_utf16] answers [non_standard_encoding] with a cleared
    output whenever the first code point is below 0x110000, and it never
    succeeds on a non-empty input. *)
Theorem strict_utf32_to_utf16_rejects (front : Z) (rest utf16_s : list Z) :
  is_correct_code_point front = false /\
  (front < supplementary_plane_end ->
   utf32_to_utf16 (front :: rest) utf16_s true
   = Some (non_standard_encoding, [])) /\
  (exists status,
     utf32_to_utf16 (front :: rest) utf16_s true = Some (status, []) /\
     status_lt status success = true).
Proof.
  split; [apply is_correct_code_point_false|].
  rewrite utf32_to_utf16_unfold. cbn [utf32_to_utf16_loop].
  rewrite is_correct_code_point_false. cbn [negb andb].
  destruct (front >=? supplementary_plane_end) eqn:Hge.
  - split; [|now exists undefined_error].
    intros Hlt. rewrite Z.geb_leb in Hge. apply Z.leb_le in Hge. lia.
  - split; [reflexivity | now exists non_standard_encoding].
Qed.

Lemma strict_utf32_to_utf16_rejects_witness :
  0x41 < supplementary_plane_end /\
  utf32_to_utf16 [0x41; 0x42] [0x43] true = Some (non_standard_encoding, []).
Proof.
  split; [reflexivity|].
  apply (proj1 (proj2 (strict_utf32_to_utf16_rejects 0x41 [0x42] [0x43]))).
  reflexivity.
Defined.

(** ** Reads outside the input *)

Lemma utf8_has_bom_in_bounds code_units :
  (3 <= length code_units)%nat -> utf8_has_bom code_units <> None.
Proof.
  destruct code_units as [|c0 [|c1 [|c2 tl]]]; cbn [length]; try lia.
  intros _. unfold utf8_has_bom. cbn [nth_error].
  destruct (c0 =? 0xEF); [|discriminate].
  destruct (c1 =? 0xBB); discriminate.
Qed.

Lemma utf8_to_utf32_in_bounds utf8_sv utf32_s comply_with_standard :
  utf8_to_utf32 utf8_sv utf32_s comply_with_standard <> None.
Proof.
  unfold utf8_to_utf32.
  destruct (Z.of_nat (length utf8_sv) >=? 3) eqn:Hlen; [|discriminate].
  rewrite Z.geb_leb in Hlen. apply Z.leb_le in Hlen.
  destruct (utf8_has_bom utf8_sv) as [[|]|] eqn:Hbom; try discriminate.
  exfalso. revert Hbom. apply utf8_has_bom_in_bounds. lia.
Qed.

(** C10: [utf16_to_utf32], [utf32_to_utf8] and [utf32_to_utf16] read
    element 0 before any length test, so they read outside the input
    exactly when it is empty; [utf8_to_utf32] probes for its mark only
    when there are at least 3 units and never reads outside its input,
    although the probe alone would on the two units EF BB. *)
Theorem index_zero_read_unguarded (sv out : list Z) (strict : bool) :
  (utf16_to_utf32 sv out strict = None <-> sv = []) /\
  (utf32_to_utf8  sv out strict = None <-> sv = []) /\
  (utf32_to_utf16 sv out strict = None <-> sv = []) /\
  utf8_to_utf32 sv out strict <> None /\
  utf8_to_utf32 [] out strict = Some (success, out) /\
  utf8_has_bom [0xEF; 0xBB] = None.
Proof.
  assert (Hfront : forall f : list Z -> option returned,
             (f [] = None) -> (forall x l, f (x :: l) <> None) ->
             (f sv = None <-> sv = [])).
  { intros f Hnil Hcons. split; [|intros ->; exact Hnil].
    destruct sv as [|x l]; [reflexivity|]. intros H. now apply Hcons in H. }
  split; [|split; [|split; [|split; [|split]]]].
  - apply (Hfront (fun l => utf16_to_utf32 l out strict)); [reflexivity|].
    discriminate.
  - apply (Hfront (fun l => utf32_to_utf8 l out strict)); [reflexivity|].
    discriminate.
  - apply (Hfront (fun l => utf32_to_utf16 l out strict)); [reflexivity|].
    discriminate.
  - apply utf8_to_utf32_in_bounds.
  - reflexivity.
  - reflexivity.
Qed.

Lemma index_zero_read_unguarded_witness :
  utf16_to_utf32 [] [0x41] true = None /\
  utf32_to_utf8  [] [0x41] true = None /\
  utf32_to_utf16 [] [0x41] true = None.
Proof.
  pose proof (index_zero_read_unguarded [] [0x41] true)
    as (H16 & H8 & H32 & _).
  split; [apply H16; reflexivity|].
  split; [apply H8; reflexivity | apply H32; reflexivity].
Defined.

(** ** Failure and the caller's output *)

Lemma cleared_on_success out : cleared_on_failure (success, out).
Proof. intros H. discriminate H. Qed.

Lemma cleared_on_clear status : cleared_on_failure (status, []).
Proof. intros _. reflexivity. Qed.

Ltac case_cond :=
  match goal with
  | |- context [if ?c then _ else _] => destruct c eqn:?
  end.

Ltac case_list :=
  match goal with
  | |- context [match ?l with [] => _ | _ :: _ => _ end] =>
    is_var l; destruct l; cbv iota
  end.

Lemma utf8_to_utf32_loop_clears n :
  forall units utf32_s, (length units <= n)%nat ->
    cleared_on_failure (utf8_to_utf32_loop units utf32_s).
Proof.
  induction n as [|n IH]; intros units utf32_s Hlen.
  - destruct units; [|cbn in Hlen; lia]. apply cleared_on_success.
  - destruct units as [|u0 units]; [apply cleared_on_success|].
    cbn [utf8_to_utf32_loop]; cbn [length] in Hlen.
    repeat first [case_cond | case_list];
      first [ apply cleared_on_clear | apply IH; cbn [length] in *; lia ].
Qed.

Lemma utf16_to_utf32_loop_clears reverse strict units :
  forall flag utf32_s,
    cleared_on_failure (utf16_to_utf32_loop reverse strict units flag utf32_s).
Proof.
  induction units as [|u0 units IH]; intros flag utf32_s.
  - apply cleared_on_success.
  - cbn [utf16_to_utf32_loop].
    destruct flag; [apply IH|].
    destruct units as [|u1 units]; repeat case_cond;
      try apply IH; apply cleared_on_clear.
Qed.

Lemma utf32_to_utf8_loop_clears reverse strict units :
  forall utf8_s,
    cleared_on_failure (utf32_to_utf8_loop reverse strict units utf8_s).
Proof.
  induction units as [|u0 units IH]; intros utf8_s.
  - apply cleared_on_success.
  - cbn [utf32_to_utf8_loop]. repeat case_cond;
      try apply IH; apply cleared_on_clear.
Qed.

Lemma utf32_to_utf16_loop_clears reverse strict units :
  forall utf16_s,
    cleared_on_failure (utf32_to_utf16_loop reverse strict units utf16_s).
Proof.
  induction units as [|u0 units IH]; intros utf16_s.
  - apply cleared_on_success.
  - cbn [utf32_to_utf16_loop]. repeat case_cond;
      try apply IH; apply cleared_on_clear.
Qed.

Lemma some_eq {A : Type} (a b : A) : Some a = Some b -> a = b.
Proof. intros H. now injection H. Qed.

(** The four primitive conversions clear the output on every failure. *)
Lemma primitives_clear_on_failure sv out strict r :
  utf8_to_utf32 sv out strict = Some r \/
  utf16_to_utf32 sv out strict = Some r \/
  utf32_to_utf8 sv out strict = Some r \/
  utf32_to_utf16 sv out strict = Some r ->
  cleared_on_failure r.
Proof.
  intros [H|[H|[H|H]]].
  - unfold utf8_to_utf32 in H.
    repeat match type of H with
      | context [if ?c then _ else _] => destruct c
      | context [match ?c with None => _ | _ => _ end] => destruct c
      end; try discriminate H;
      apply some_eq in H; subst r; eapply utf8_to_utf32_loop_clears;
      reflexivity.
  - unfold utf16_to_utf32 in H. destruct (nth_error sv 0); [|discriminate H].
    apply some_eq in H. subst r. apply utf16_to_utf32_loop_clears.
  - unfold utf32_to_utf8 in H. destruct (nth_error sv 0); [|discriminate H].
    apply some_eq in H. subst r. apply utf32_to_utf8_loop_clears.
  - unfold utf32_to_utf16 in H. destruct (nth_error sv 0); [|discriminate H].
    apply some_eq in H. subst r. apply utf32_to_utf16_loop_clears.
Qed.

(** The chained conversions return on failure without touching the
    caller's string. *)
Lemma chained_failure_leaves_output sv out strict status out' :
  utf8_to_utf16 sv out strict = Some (status, out') \/
  utf16_to_utf8 sv out strict = Some (status, out') ->
  status_lt status success = true -> out' = out.
Proof.
  unfold utf8_to_utf16, utf16_to_utf8. intros [H|H] Hlt;
    repeat match type of H with
      | context [match ?c with None => _ | _ => _ end] => destruct c
      | context [let (_, _) := ?c in _] => destruct c
      | context [if ?c then _ else _] => destruct c
      end; try discriminate H;
    injection H as <- <-; try reflexivity; discriminate Hlt.
Qed.

(** C2: a failing chained conversion leaves the prior content of the
    caller's output in place instead of clearing it: [utf8_to_utf16] on
    the stray continuation byte 82 and the strict [utf16_to_utf8] on the
    lone surrogate D800, each called with an output already holding 0x41,
    fail and return that output unchanged. *)
Theorem chained_failure_not_cleared :
  utf8_to_utf16 [0x82] [0x41] false = Some (trailing_without_leading, [0x41])
  /\ status_lt trailing_without_leading success = true
  /\ utf16_to_utf8 [0xD800] [0x41] true = Some (non_standard_encoding, [0x41])
  /\ status_lt non_standard_encoding success = true.
Proof. repeat apply conj; reflexivity. Qed.

(** ** UTF-8 decoding of multi-byte sequences *)

Ltac prop_of_bool :=
  repeat match goal with
    | H : (_ =? _) = true |- _ => apply Z.eqb_eq in H
    | H : (_ =? _) = false |- _ => apply Z.eqb_neq in H
    | H : (_ <? _) = true |- _ => apply Z.ltb_lt in H
    | H : (_ <? _) = false |- _ => apply Z.ltb_ge in H
    | H : (_ <=? _) = true |- _ => apply Z.leb_le in H
    | H : (_ <=? _) = false |- _ => apply Z.leb_gt in H
    | H : (_ >? _) = _ |- _ => rewrite Z.gtb_ltb in H
    | H : (_ >=? _) = _ |- _ => rewrite Z.geb_leb in H
    end.

(** Equality of two explicit lists of units, unit by unit. *)
Ltac units_eq :=
  repeat (apply (f_equal2 (@cons Z)); [arith|]); reflexivity.

(** Settles the tests of a loop body from the hypotheses on the unit. *)
Ltac settle_tests :=
  repeat (case_cond; prop_of_bool; try (exfalso; arith)).

(** A byte [110xxxxx]: the shift by 6 keeps the three marker bits, which
    land on bits 11..13 of the 16-bit code point. *)
Lemma two_byte_decode lead next units utf32_s :
  is_char8 lead -> Z.shiftr lead 5 = double_byte_marker ->
  utf8_to_utf32_loop (lead :: next :: units) utf32_s
  = utf8_to_utf32_loop units
      (push_back utf32_s (0x3000 + (lead mod 32) * 64 + next mod 64)).
Proof.
  unfold is_char8. intros Hrange Hlead. cbn [utf8_to_utf32_loop].
  settle_tests. do 2 f_equal. arith.
Qed.

Lemma two_byte_cut_off lead utf32_s :
  is_char8 lead -> Z.shiftr lead 5 = double_byte_marker ->
  utf8_to_utf32_loop [lead] utf32_s = (character_cut_off, []).
Proof.
  unfold is_char8. intros Hrange Hlead. cbn [utf8_to_utf32_loop].
  settle_tests. reflexivity.
Qed.

(** C3: the bytes C3 A9 decode to 0x30E9, not to 0xE9: the value the
    claim describes, the low 5 bits of C3 shifted by 6 plus the low 6 bits
    of A9, is 0xE9. *)
Theorem two_byte_decode_keeps_marker :
  utf8_to_utf32 [0xC3; 0xA9] [] false = Some (success, [0x30E9]) /\
  Z.shiftl (Z.land 0xC3 0x1F) 6 + Z.land 0xA9 0x3F = 0xE9.
Proof. split; reflexivity. Qed.

(** A byte [11110xxx]: the shift by 18 keeps the five marker bits, which
    land on bits 21..25 of the code point. *)
Lemma four_byte_decode lead u1 u2 u3 units utf32_s :
  is_char8 lead -> Z.shiftr lead 3 = quadruple_byte_marker ->
  utf8_to_utf32_loop (lead :: u1 :: u2 :: u3 :: units) utf32_s
  = utf8_to_utf32_loop units
      (push_back utf32_s
         (0x3C00000 + (lead mod 8) * 2^18 + (u1 mod 64) * 2^12
          + (u2 mod 64) * 2^6 + u3 mod 64)).
Proof.
  unfold is_char8. intros Hrange Hlead. cbn [utf8_to_utf32_loop].
  settle_tests. do 2 f_equal. arith.
Qed.

Lemma four_byte_cut_off lead units utf32_s :
  is_char8 lead -> Z.shiftr lead 3 = quadruple_byte_marker ->
  (length units < 3)%nat ->
  utf8_to_utf32_loop (lead :: units) utf32_s = (character_cut_off, []).
Proof.
  unfold is_char8. intros Hrange Hlead Hlen. cbn [utf8_to_utf32_loop].
  settle_tests.
  destruct units as [|u1 [|u2 [|u3 units]]]; try reflexivity.
  cbn [length] in Hlen. lia.
Qed.

(** C4: the bytes F0 90 8D 88 decode to 0x3C10348, not to 0x10348: the
    3/6/6/6 payload bits of the four bytes combine to 0x10348. *)
Theorem four_byte_decode_keeps_marker :
  utf8_to_utf32 [0xF0; 0x90; 0x8D; 0x88] [] false
  = Some (success, [0x3C10348]) /\
  Z.shiftl (Z.land 0xF0 0x07) 18 + Z.shiftl (Z.land 0x90 0x3F) 12
  + Z.shiftl (Z.land 0x8D 0x3F) 6 + Z.land 0x88 0x3F = 0x10348.
Proof. split; reflexivity. Qed.

(** ** UTF-8 encoding *)

(** A code point of the supplementary planes: [quadruple_byte_marker] is
    shifted by 5, not 3, and the narrowing to [char8_t] leaves 0xC0 as the
    marker of the first byte. *)
Lemma four_byte_encode cp units utf8_s strict :
  0x10000 <= cp <= 0x10FFFF ->
  utf32_to_utf8_loop false strict (cp :: units) utf8_s
  = utf32_to_utf8_loop false strict units
      (utf8_s ++ [0xC0 + cp / 2^18; 0x80 + (cp / 2^12) mod 64;
                  0x80 + (cp / 2^6) mod 64; 0x80 + cp mod 64]).
Proof.
  intros Hrange. cbn [utf32_to_utf8_loop]. settle_tests.
  unfold push_back. rewrite <- !app_assoc. cbn [app].
  do 2 apply f_equal. units_eq.
Qed.

(** C5: code point 0x10348 is encoded as C0 90 8D 88; the first byte has
    the form 110xxxxx, where the claim has F0 (11110xxx). *)
Theorem four_byte_encode_wrong_marker :
  utf32_to_utf8 [0x10348] [] false = Some (success, [0xC0; 0x90; 0x8D; 0x88])
  /\ Z.shiftr 0xC0 5 = double_byte_marker
  /\ Z.shiftr 0xC0 3 <> quadruple_byte_marker.
Proof. repeat apply conj; [reflexivity | reflexivity | discriminate]. Qed.

(** Three-byte range: [wrong_encoding] is
    [(comply_with_standard && cp < 0xDC00) || cp > 0xD800]. *)
Lemma three_byte_encode_strict cp units utf8_s :
  0x800 <= cp <= 0xFFFF ->
  utf32_to_utf8_loop false true (cp :: units) utf8_s
  = (non_standard_encoding, []).
Proof.
  intros Hrange. cbn [utf32_to_utf8_loop]. settle_tests; reflexivity.
Qed.

Lemma three_byte_encode_lenient_rejects cp units utf8_s :
  0xD800 < cp <= 0xFFFF ->
  utf32_to_utf8_loop false false (cp :: units) utf8_s
  = (non_standard_encoding, []).
Proof.
  intros Hrange. cbn [utf32_to_utf8_loop]. settle_tests; reflexivity.
Qed.

Lemma three_byte_encode_lenient cp units utf8_s :
  0x800 <= cp <= 0xD800 ->
  utf32_to_utf8_loop false false (cp :: units) utf8_s
  = utf32_to_utf8_loop false false units
      (utf8_s ++ [0xE0 + cp / 2^12; 0x80 + (cp / 2^6) mod 64;
                  0x80 + cp mod 64]).
Proof.
  intros Hrange. cbn [utf32_to_utf8_loop]. settle_tests.
  unfold push_back. rewrite <- !app_assoc. cbn [app].
  do 2 apply f_equal. units_eq.
Qed.

(** C6: in the three-byte range the strict encoder rejects 0x20AC, which
    is not a surrogate, and the lenient encoder rejects 0xDFFF and 0xE000;
    the lenient encoder accepts 0xD800 and 0x20AC. *)
Theorem three_byte_surrogate_check_wrong :
  utf32_to_utf8 [0x20AC] [] true = Some (non_standard_encoding, [])
  /\ ~ in_surrogate_range 0x20AC
  /\ utf32_to_utf8 [0xDFFF] [] false = Some (non_standard_encoding, [])
  /\ utf32_to_utf8 [0xE000] [] false = Some (non_standard_encoding, [])
  /\ utf32_to_utf8 [0xD800] [] false = Some (success, [0xED; 0xA0; 0x80])
  /\ utf32_to_utf8 [0x20AC] [] false = Some (success, [0xE2; 0x82; 0xAC]).
Proof.
  repeat apply conj; try reflexivity.
  unfold in_surrogate_range. lia.
Qed.

(** ** Byte order of UTF-16 input *)



(** C8: the reversed mark 0xFFFE itself is turned into 0xFDFF, while its
    byte swap is 0xFEFF; the buffer FFFE 4100 decodes to FDFF 0041. *)
Theorem reversed_mark_not_swapped :
  utf16_bom 0xFFFE = little_endian
  /\ byte_swap16 0xFFFE = 0xFEFF
  /\ utf16_reverse_endianness 0xFFFE = 0xFDFF
  /\ utf16_to_utf32 [0xFFFE; 0x4100] [] false = Some (success, [0xFDFF; 0x41]).
Proof. repeat apply conj; reflexivity. Qed.

(** ** UTF-16 decoding: high surrogates without a low surrogate *)

Section Utf16Decoding.
Variable reverse : bool.

Let read := utf16_unit_read reverse.

(** In lenient mode the loop succeeds and only appends. *)
Lemma utf16_lenient_appends units :
  forall flag utf32_s,
    utf16_to_utf32_loop reverse false units flag utf32_s
    = (success,
       utf32_s ++ snd (utf16_to_utf32_loop reverse false units flag [])).
Proof.
  induction units as [|u0 units IH]; intros flag utf32_s.
  - cbn. now rewrite app_nil_r.
  - cbn [utf16_to_utf32_loop]. destruct flag; [apply IH|].
    destruct units as [|u1 units]; repeat case_cond;
      rewrite IH; symmetry; rewrite IH; cbn [snd]; unfold push_back;
      now rewrite app_assoc.
Qed.

(** One iteration of the loop, by the case the unit falls in. *)
Lemma utf16_step_skip strict u units utf32_s :
  utf16_to_utf32_loop reverse strict (u :: units) true utf32_s
  = utf16_to_utf32_loop reverse strict units false utf32_s.
Proof. reflexivity. Qed.

Lemma utf16_step_plain strict u units utf32_s :
  is_high_surrogate (read u) = false ->
  utf16_to_utf32_loop reverse strict (u :: units) false utf32_s
  = utf16_to_utf32_loop reverse strict units false
      (push_back utf32_s (read u)).
Proof.
  intros Hu. cbn [utf16_to_utf32_loop].
  change (if reverse then utf16_reverse_endianness u else u) with (read u).
  now rewrite Hu.
Qed.

Lemma utf16_step_pair strict u next units utf32_s :
  is_high_surrogate (read u) = true ->
  is_low_surrogate (read next) = true ->
  utf16_to_utf32_loop reverse strict (u :: next :: units) false utf32_s
  = utf16_to_utf32_loop reverse strict units false
      (push_back utf32_s
         (to_uint32
            (to_uint32 (Z.shiftl (read u - high_surrogate_start) 10)
             + to_uint16 (read next - low_surrogate_start)
             + supplementary_plane_offset))).
Proof.
  intros Hu Hnext. cbn [utf16_to_utf32_loop].
  change (if reverse then utf16_reverse_endianness u else u) with (read u).
  change (if reverse then utf16_reverse_endianness next else next)
    with (read next).
  now rewrite Hu, Hnext.
Qed.

Lemma utf16_step_last strict u utf32_s :
  is_high_surrogate (read u) = true ->
  utf16_to_utf32_loop reverse strict [u] false utf32_s
  = if strict then (non_standard_encoding, [])
    else (success, push_back utf32_s (read u)).
Proof.
  intros Hu. cbn [utf16_to_utf32_loop].
  change (if reverse then utf16_reverse_endianness u else u) with (read u).
  now rewrite Hu.
Qed.

Lemma utf16_step_lone strict u next units utf32_s :
  is_high_surrogate (read u) = true ->
  is_low_surrogate (read next) = false ->
  utf16_to_utf32_loop reverse strict (u :: next :: units) false utf32_s
  = if strict then (non_standard_encoding, [])
    else utf16_to_utf32_loop reverse strict (next :: units) false
           (push_back utf32_s (read u)).
Proof.
  intros Hu Hnext.
  change (utf16_to_utf32_loop reverse strict (u :: next :: units) false
            utf32_s)
    with (if is_high_surrogate (read u) then
            if negb (is_low_surrogate (read next)) then
              if strict then (non_standard_encoding, [])
              else utf16_to_utf32_loop reverse strict (next :: units) false
                     (push_back utf32_s (read u))
            else utf16_to_utf32_loop reverse strict (next :: units) true
                   (push_back utf32_s
                      (to_uint32
                         (to_uint32
                            (Z.shiftl (read u - high_surrogate_start) 10)
                          + to_uint16 (read next - low_surrogate_start)
                          + supplementary_plane_offset)))
          else utf16_to_utf32_loop reverse strict (next :: units) false
                 (push_back utf32_s (read u))).
  now rewrite Hu, Hnext.
Qed.



End Utf16Decoding.






(** ** Lenient round trips *)

Section RoundTripUtf16.
Lemma utf32_to_utf16_scalar cp units utf16_s :
  lenient_scalar cp ->
  utf32_to_utf16_loop false false (cp :: units) utf16_s
  = utf32_to_utf16_loop false false units (utf16_s ++ utf16_units cp).
Proof.
  unfold lenient_scalar, in_surrogate_range. intros [Hrange Hsur].
  cbn [utf32_to_utf16_loop]. rewrite andb_false_r.
  unfold utf16_units. settle_tests; unfold push_back;
    rewrite <- ?app_assoc; cbn [app]; do 2 apply f_equal; units_eq.
Qed.

Lemma utf32_to_utf16_scalars code_points :
  Forall lenient_scalar code_points ->
  forall utf16_s,
    utf32_to_utf16_loop false false code_points utf16_s
    = (success, utf16_s ++ flat_map utf16_units code_points).
Proof.
  induction 1 as [|cp code_points Hcp _ IH]; intros utf16_s.
  - cbn. now rewrite app_nil_r.
  - rewrite utf32_to_utf16_scalar by assumption. rewrite IH.
    cbn [flat_map]. now rewrite app_assoc.
Qed.

Lemma utf16_units_decode cp units utf32_s :
  lenient_scalar cp ->
  utf16_to_utf32_loop false false (utf16_units cp ++ units) false utf32_s
  = utf16_to_utf32_loop false false units false (utf32_s ++ [cp]).
Proof.
  unfold lenient_scalar, in_surrogate_range. intros [Hrange Hsur].
  unfold utf16_units. case_cond; prop_of_bool; cbn [app].
  - rewrite utf16_step_pair.
    + unfold push_back, utf16_unit_read. do 2 apply f_equal. units_eq.
    + unfold utf16_unit_read, is_high_surrogate. apply Z.eqb_eq. arith.
    + unfold utf16_unit_read, is_low_surrogate. apply Z.eqb_eq. arith.
  - rewrite utf16_step_plain; [reflexivity|].
    unfold utf16_unit_read, is_high_surrogate. apply Z.eqb_neq. arith.
Qed.

Lemma utf16_units_decode_all code_points :
  Forall lenient_scalar code_points ->
  forall utf32_s,
    utf16_to_utf32_loop false false (flat_map utf16_units code_points)
      false utf32_s
    = (success, utf32_s ++ code_points).
Proof.
  induction 1 as [|cp code_points Hcp _ IH]; intros utf32_s.
  - cbn. now rewrite app_nil_r.
  - cbn [flat_map]. rewrite utf16_units_decode by assumption.
    rewrite IH. now rewrite <- app_assoc.
Qed.

(** The first unit emitted for a sequence that does not start with
    0xFFFE is not read as the reversed mark. *)
Lemma utf16_units_front cp code_points :
  lenient_scalar cp -> cp <> 0xFFFE ->
  exists front units,
    flat_map utf16_units (cp :: code_points) = front :: units /\
    is_little_endian (utf16_bom front) = false.
Proof.
  unfold lenient_scalar, in_surrogate_range. intros [Hrange Hsur] Hmark.
  cbn [flat_map]. unfold utf16_units. case_cond; prop_of_bool; cbn [app].
  - eexists _, _. split; [reflexivity|]. unfold utf16_bom.
    repeat case_cond; prop_of_bool; try reflexivity. exfalso; arith.
  - eexists _, _. split; [reflexivity|]. unfold utf16_bom.
    repeat case_cond; prop_of_bool; try reflexivity. exfalso; arith.
Qed.
End RoundTripUtf16.

Section RoundTripUtf8.
Lemma utf32_to_utf8_unit cp units utf8_s :
  one_or_three_bytes cp ->
  utf32_to_utf8_loop false false (cp :: units) utf8_s
  = utf32_to_utf8_loop false false units (utf8_s ++ utf8_units cp).
Proof.
  unfold one_or_three_bytes, utf8_units. intros [Hone|Hthree].
  - cbn [utf32_to_utf8_loop]. settle_tests.
    unfold push_back. do 2 apply f_equal. units_eq.
  - rewrite three_byte_encode_lenient by lia.
    case_cond; prop_of_bool; [lia|reflexivity].
Qed.

Lemma utf32_to_utf8_units code_points :
  Forall one_or_three_bytes code_points ->
  forall utf8_s,
    utf32_to_utf8_loop false false code_points utf8_s
    = (success, utf8_s ++ flat_map utf8_units code_points).
Proof.
  induction 1 as [|cp code_points Hcp _ IH]; intros utf8_s.
  - cbn. now rewrite app_nil_r.
  - rewrite utf32_to_utf8_unit by assumption. rewrite IH.
    cbn [flat_map]. now rewrite app_assoc.
Qed.

Lemma utf8_units_decode cp units utf32_s :
  one_or_three_bytes cp ->
  utf8_to_utf32_loop (utf8_units cp ++ units) utf32_s
  = utf8_to_utf32_loop units (utf32_s ++ [cp]).
Proof.
  unfold one_or_three_bytes, utf8_units. intros Hcp.
  case_cond; prop_of_bool; cbn [app utf8_to_utf32_loop]; settle_tests.
  - reflexivity.
  - unfold push_back. do 2 apply f_equal. units_eq.
Qed.

Lemma utf8_units_decode_all code_points :
  Forall one_or_three_bytes code_points ->
  forall utf32_s,
    utf8_to_utf32_loop (flat_map utf8_units code_points) utf32_s
    = (success, utf32_s ++ code_points).
Proof.
  induction 1 as [|cp code_points Hcp _ IH]; intros utf32_s.
  - cbn. now rewrite app_nil_r.
  - cbn [flat_map]. rewrite utf8_units_decode by assumption.
    rewrite IH. now rewrite <- app_assoc.
Qed.

(** Without the byte EF in front no mark is found. *)
Lemma utf8_to_utf32_no_mark front units utf32_s strict :
  front <> 0xEF ->
  utf8_to_utf32 (front :: units) utf32_s strict
  = Some (utf8_to_utf32_loop (front :: units) utf32_s).
Proof.
  intros Hfront. unfold utf8_to_utf32, utf8_has_bom. cbn [nth_error].
  apply Z.eqb_neq in Hfront. rewrite Hfront. now case_cond.
Qed.

Lemma utf8_units_front cp code_points :
  one_or_three_bytes cp ->
  exists front units,
    flat_map utf8_units (cp :: code_points) = front :: units /\
    front <> 0xEF.
Proof.
  unfold one_or_three_bytes. intros Hcp.
  cbn [flat_map]. unfold utf8_units. case_cond; prop_of_bool; cbn [app];
    eexists _, _; (split; [reflexivity|arith]).
Qed.
End RoundTripUtf8.

(** C1, as amended: for a non-empty sequence of code points outside the
    surrogate range and not above 0x10FFFF, the lenient round trip through
    [utf32_to_utf16] and [utf16_to_utf32] returns [success] and the
    original sequence when the first code point is not 0xFFFE; the lenient
    round trip through [utf32_to_utf8] and [utf8_to_utf32] does when every
    code point is at most 0x7F or lies in 0x800..0xD7FF. *)
Theorem lenient_round_trip (code_points : list Z) :
  code_points <> [] ->
  Forall lenient_scalar code_points ->
  (hd 0 code_points <> 0xFFFE -> round_trip_utf16 code_points) /\
  (Forall one_or_three_bytes code_points -> round_trip_utf8 code_points).
Proof.
  intros Hnonempty Hscalars.
  destruct code_points as [|cp code_points]; [congruence|]. split.
  - cbn [hd]. intros Hmark.
    exists (flat_map utf16_units (cp :: code_points)). split.
    + rewrite utf32_to_utf16_unfold.
      now rewrite utf32_to_utf16_scalars.
    + destruct (utf16_units_front cp code_points)
        as (front & units & Hunits & Hbom);
        [now inversion Hscalars | assumption |].
      unfold utf16_to_utf32. rewrite Hunits. cbn [nth_error].
      rewrite Hbom, <- Hunits.
      now rewrite utf16_units_decode_all.
  - intros Hbytes.
    exists (flat_map utf8_units (cp :: code_points)). split.
    + rewrite utf32_to_utf8_unfold.
      now rewrite utf32_to_utf8_units.
    + destruct (utf8_units_front cp code_points)
        as (front & units & Hunits & Hfront); [now inversion Hbytes|].
      rewrite Hunits, utf8_to_utf32_no_mark, <- Hunits by assumption.
      now rewrite utf8_units_decode_all.
Qed.

Lemma lenient_round_trip_witness :
  round_trip_utf16 [0x41; 0x20AC; 0xFFFE; 0x10348] /\
  round_trip_utf8 [0x41; 0x20AC; 0x7F; 0xD7FF].
Proof.
  assert (Hscalar : forall cp, 0 <= cp <= 0x10FFFF ->
                               cp < 0xD800 \/ 0xDFFF < cp ->
                               lenient_scalar cp)
    by (unfold lenient_scalar, in_surrogate_range; lia).
  split.
  - apply (lenient_round_trip [0x41; 0x20AC; 0xFFFE; 0x10348]).
    + discriminate.
    + repeat constructor; apply Hscalar; lia.
    + cbn [hd]. lia.
  - apply (lenient_round_trip [0x41; 0x20AC; 0x7F; 0xD7FF]).
    + discriminate.
    + repeat constructor; apply Hscalar; lia.
    + repeat constructor; unfold one_or_three_bytes; lia.
Defined.

(** C1, as stated, fails: the sequence FFFE 0041 has no surrogate and
    nothing above 0x10FFFF, it is encoded to the units FFFE 0041, and
    these are decoded, read as little-endian, to FDFF 4100. *)
Lemma lenient_round_trip_utf16_fails :
  Forall lenient_scalar [0xFFFE; 0x41] /\
  utf32_to_utf16 [0xFFFE; 0x41] [] false = Some (success, [0xFFFE; 0x41]) /\
  utf16_to_utf32 [0xFFFE; 0x41] [] false = Some (success, [0xFDFF; 0x4100]) /\
  ~ round_trip_utf16 [0xFFFE; 0x41].
Proof.
  split; [|split; [reflexivity|split; [reflexivity|]]].
  - repeat constructor; unfold in_surrogate_range; lia.
  - intros (units & Hencode & Hdecode).
    assert (Hunits : units = [0xFFFE; 0x41]).
    { change (utf32_to_utf16 [0xFFFE; 0x41] [] false)
        with (Some (success, [0xFFFE; 0x41])) in Hencode.
      congruence. }
    subst units.
    change (utf16_to_utf32 [0xFFFE; 0x41] [] false)
      with (Some (success, [0xFDFF; 0x4100])) in Hdecode.
    discriminate Hdecode.
Qed.

(** The round trip through UTF-8 fails on code points of two bytes, of
    three bytes above 0xD800 and of four bytes, and both round trips fail
    on the empty sequence. *)
Lemma lenient_round_trip_utf8_fails :
  utf32_to_utf8 [0xE9] [] false = Some (success, [0xC3; 0xA9])
  /\ utf8_to_utf32 [0xC3; 0xA9] [] false = Some (success, [0x30E9])
  /\ utf32_to_utf8 [0xFFFD] [] false = Some (non_standard_encoding, [])
  /\ utf32_to_utf8 [0x10348] [] false = Some (success, [0xC0; 0x90; 0x8D; 0x88])
  /\ utf8_to_utf32 [0xC0; 0x90; 0x8D; 0x88] [] false
     = Some (trailing_without_leading, [])
  /\ utf32_to_utf8 [] [] false = None
  /\ utf32_to_utf16 [] [] false = None.
Proof. repeat apply conj; reflexivity. Qed.

(** * Further properties of the conversions *)

(** ** Prior content of the output *)

Lemma onto_onto prior fresh r :
  onto prior (onto fresh r) = onto (prior ++ fresh) r.
Proof.
  unfold onto. destruct r as [[] out]; cbn [fst snd]; try reflexivity.
  now rewrite app_assoc.
Qed.

Lemma onto_failure prior status :
  status <> success -> onto prior (status, []) = (status, []).
Proof. destruct status; intros H; try reflexivity. congruence. Qed.

(** Closes the goals left by the case analysis of a loop body: a cleared
    failure, or one more iteration on a longer output. *)
Ltac frame_step IH :=
  first
    [ reflexivity
    | rewrite IH; symmetry; rewrite IH; rewrite onto_onto; reflexivity
    | apply IH ].

Lemma utf8_to_utf32_loop_onto n :
  forall units utf32_s, (length units <= n)%nat ->
    utf8_to_utf32_loop units utf32_s
    = onto utf32_s (utf8_to_utf32_loop units []).
Proof.
  induction n as [|n IH]; intros units utf32_s Hlen.
  - destruct units; [|cbn in Hlen; lia].
    cbn. unfold onto. cbn. now rewrite app_nil_r.
  - destruct units as [|u0 units].
    { cbn. unfold onto. cbn. now rewrite app_nil_r. }
    cbn [utf8_to_utf32_loop]; cbn [length] in Hlen.
    repeat first [case_cond | case_list];
      try reflexivity;
      try (apply IH; cbn [length] in *; lia);
      rewrite IH by (cbn [length] in *; lia); symmetry;
      rewrite IH by (cbn [length] in *; lia);
      rewrite onto_onto; reflexivity.
Qed.

Lemma utf16_to_utf32_loop_onto reverse strict units :
  forall flag utf32_s,
    utf16_to_utf32_loop reverse strict units flag utf32_s
    = onto utf32_s (utf16_to_utf32_loop reverse strict units flag []).
Proof.
  induction units as [|u0 units IH]; intros flag utf32_s.
  - cbn. unfold onto. cbn. now rewrite app_nil_r.
  - cbn [utf16_to_utf32_loop]. destruct flag; [apply IH|].
    destruct units as [|u1 units]; repeat case_cond; frame_step IH.
Qed.

Lemma utf32_to_utf8_loop_onto reverse strict units :
  forall utf8_s,
    utf32_to_utf8_loop reverse strict units utf8_s
    = onto utf8_s (utf32_to_utf8_loop reverse strict units []).
Proof.
  induction units as [|u0 units IH]; intros utf8_s.
  - cbn. unfold onto. cbn. now rewrite app_nil_r.
  - cbn [utf32_to_utf8_loop]. repeat case_cond; try reflexivity;
      try apply IH;
      rewrite IH; symmetry; rewrite IH; rewrite onto_onto;
      unfold push_back; now rewrite <- ?app_assoc.
Qed.

Lemma utf32_to_utf16_loop_onto reverse strict units :
  forall utf16_s,
    utf32_to_utf16_loop reverse strict units utf16_s
    = onto utf16_s (utf32_to_utf16_loop reverse strict units []).
Proof.
  induction units as [|u0 units IH]; intros utf16_s.
  - cbn. unfold onto. cbn. now rewrite app_nil_r.
  - cbn [utf32_to_utf16_loop]. repeat case_cond; try reflexivity;
      rewrite IH; symmetry; rewrite IH; rewrite onto_onto;
      unfold push_back; now rewrite <- ?app_assoc.
Qed.

(** The probe for the mark EF BB BF changes nothing: these three bytes
    are a three byte sequence of the loop, which decodes them to 0xFEFF. *)
Lemma utf8_to_utf32_scan utf8_sv utf32_s strict :
  utf8_to_utf32 utf8_sv utf32_s strict
  = Some (utf8_to_utf32_loop utf8_sv utf32_s).
Proof.
  unfold utf8_to_utf32.
  destruct (Z.of_nat (length utf8_sv) >=? 3) eqn:Hlen; [|reflexivity].
  destruct utf8_sv as [|c0 [|c1 [|c2 rest]]]; try discriminate Hlen.
  unfold utf8_has_bom. cbn [nth_error].
  destruct (c0 =? 0xEF) eqn:H0; [|reflexivity].
  destruct (c1 =? 0xBB) eqn:H1; [|reflexivity].
  destruct (c2 =? 0xBF) eqn:H2; [|reflexivity].
  apply Z.eqb_eq in H0, H1, H2. subst c0 c1 c2. reflexivity.
Qed.

(** X1: the four primitive conversions do not start from an empty output:
    the status does not depend on the prior content, on [success] the
    fresh units come after the prior content, and on a failure the output
    is empty. *)
Theorem primitive_output_after_prior (sv prior : list Z) (strict : bool) :
  utf8_to_utf32 sv prior strict
  = option_map (onto prior) (utf8_to_utf32 sv [] strict) /\
  utf16_to_utf32 sv prior strict
  = option_map (onto prior) (utf16_to_utf32 sv [] strict) /\
  utf32_to_utf8 sv prior strict
  = option_map (onto prior) (utf32_to_utf8 sv [] strict) /\
  utf32_to_utf16 sv prior strict
  = option_map (onto prior) (utf32_to_utf16 sv [] strict).
Proof.
  split; [|split; [|split]].
  - rewrite !utf8_to_utf32_scan. cbn [option_map]. f_equal.
    now apply (utf8_to_utf32_loop_onto (length sv)).
  - unfold utf16_to_utf32. destruct (nth_error sv 0); [|reflexivity].
    cbn [option_map]. f_equal. apply utf16_to_utf32_loop_onto.
  - unfold utf32_to_utf8. destruct (nth_error sv 0); [|reflexivity].
    cbn [option_map]. f_equal. apply utf32_to_utf8_loop_onto.
  - unfold utf32_to_utf16. destruct (nth_error sv 0); [|reflexivity].
    cbn [option_map]. f_equal. apply utf32_to_utf16_loop_onto.
Qed.

(** X2: no 32-bit value is recognised as a byte-order mark, so the two
    encoders from UTF-32 process every element as stored; an input that
    starts with the reversed mark 0xFFFE0000, as any first element above
    0x10FFFF, fails with [undefined_error]. *)
Theorem utf32_mark_never_recognised (front : Z) (rest out : list Z)
    (strict : bool) :
  utf32_bom front = unspecified /\
  utf32_to_utf8 (front :: rest) out strict
  = Some (utf32_to_utf8_loop false strict (front :: rest) out) /\
  utf32_to_utf16 (front :: rest) out strict
  = Some (utf32_to_utf16_loop false strict (front :: rest) out) /\
  (0x10FFFF < front ->
   utf32_to_utf8 (front :: rest) out strict = Some (undefined_error, []) /\
   utf32_to_utf16 (front :: rest) out strict = Some (undefined_error, [])).
Proof.
  split; [apply utf32_bom_unspecified|].
  split; [apply utf32_to_utf8_unfold|].
  split; [apply utf32_to_utf16_unfold|].
  intros Hfront. rewrite utf32_to_utf8_unfold, utf32_to_utf16_unfold.
  cbn [utf32_to_utf8_loop utf32_to_utf16_loop].
  split; settle_tests; reflexivity.
Qed.

Lemma utf32_mark_never_recognised_witness :
  utf32_to_utf8 [0xFFFE0000; 0x41000000] [] false
  = Some (undefined_error, []) /\
  utf32_to_utf16 [0xFFFE0000; 0x41000000] [] false
  = Some (undefined_error, []).
Proof.
  apply (utf32_mark_never_recognised 0xFFFE0000 [0x41000000] [] false).
  reflexivity.
Defined.

(** ** UTF-8 decoding *)

(** X3: the mark EF BB BF in front of a UTF-8 buffer is consumed and
    emitted as the code point 0xFEFF, and what follows is decoded as a
    buffer of its own. *)
Theorem utf8_mark_emitted (rest out : list Z) (strict : bool) :
  utf8_to_utf32 (0xEF :: 0xBB :: 0xBF :: rest) out strict
  = utf8_to_utf32 rest (out ++ [0xFEFF]) strict.
Proof. rewrite !utf8_to_utf32_scan. reflexivity. Qed.

(** X4: a byte 1110xxxx followed by two bytes is decoded to the code point
    made of its low 4 bits and the low 6 bits of each of the two bytes,
    and what follows is decoded as a buffer of its own; followed by fewer
    than two bytes it fails with [character_cut_off] and a cleared
    output. *)
Theorem three_byte_decode (lead : Z) (out : list Z) (strict : bool) :
  is_char8 lead -> Z.shiftr lead 4 = triple_byte_marker ->
  (forall u1 u2 units,
      utf8_to_utf32 (lead :: u1 :: u2 :: units) out strict
      = utf8_to_utf32 units
          (out ++ [(lead mod 16) * 2^12 + (u1 mod 64) * 2^6 + u2 mod 64])
          strict) /\
  (forall units, (length units < 2)%nat ->
      utf8_to_utf32 (lead :: units) out strict
      = Some (character_cut_off, [])).
Proof.
  unfold is_char8. intros Hrange Hlead. split.
  - intros u1 u2 units. rewrite !utf8_to_utf32_scan.
    cbn [utf8_to_utf32_loop]. settle_tests.
    unfold push_back. do 3 apply f_equal. units_eq.
  - intros units Hlen. rewrite utf8_to_utf32_scan.
    cbn [utf8_to_utf32_loop]. settle_tests.
    destruct units as [|u1 [|u2 units]]; try reflexivity.
    cbn [length] in Hlen. lia.
Qed.

Lemma three_byte_decode_witness :
  utf8_to_utf32 [0xE2; 0x82; 0xAC] [] false = Some (success, [0x20AC]) /\
  utf8_to_utf32 [0xE2; 0x82] [] false = Some (character_cut_off, []).
Proof.
  assert (Hrange : is_char8 0xE2) by (unfold is_char8; lia).
  destruct (three_byte_decode 0xE2 [] false Hrange eq_refl) as [Hok Hcut].
  split.
  - rewrite (Hok 0x82 0xAC []). reflexivity.
  - apply (Hcut [0x82]). cbn. lia.
Defined.

Lemma utf8_to_utf32_loop_ascii units :
  Forall (fun b => 0 <= b < 0x80) units ->
  forall out, utf8_to_utf32_loop units out = (success, out ++ units).
Proof.
  induction 1 as [|b units Hb _ IH]; intros out.
  - cbn. now rewrite app_nil_r.
  - cbn [utf8_to_utf32_loop]. settle_tests.
    rewrite IH. unfold push_back. now rewrite <- app_assoc.
Qed.

(** X5: a buffer of bytes below 0x80 is decoded to the same values, put
    after the prior content of the output. *)
Theorem ascii_decoded_verbatim (sv out : list Z) (strict : bool) :
  Forall (fun b => 0 <= b < 0x80) sv ->
  utf8_to_utf32 sv out strict = Some (success, out ++ sv).
Proof.
  intros Hascii. rewrite utf8_to_utf32_scan.
  now rewrite utf8_to_utf32_loop_ascii.
Qed.

Lemma ascii_decoded_verbatim_witness :
  utf8_to_utf32 [0x41; 0x7F; 0x00] [0x42] true
  = Some (success, [0x42; 0x41; 0x7F; 0x00]).
Proof.
  apply (ascii_decoded_verbatim [0x41; 0x7F; 0x00] [0x42] true).
  repeat constructor; lia.
Defined.

(** X6: a leading byte 0xF8..0xFF matches no branch of the decoder: it is
    dropped without an error and without a code point. *)
Theorem invalid_lead_byte_dropped (lead : Z) (units out : list Z)
    (strict : bool) :
  0xF8 <= lead <= 0xFF ->
  utf8_to_utf32 (lead :: units) out strict = utf8_to_utf32 units out strict.
Proof.
  intros Hlead. rewrite !utf8_to_utf32_scan.
  cbn [utf8_to_utf32_loop]. settle_tests. reflexivity.
Qed.

Lemma invalid_lead_byte_dropped_witness :
  utf8_to_utf32 [0xFF; 0x41] [] false = Some (success, [0x41]).
Proof.
  rewrite (invalid_lead_byte_dropped 0xFF [0x41] [] false) by lia.
  reflexivity.
Defined.

Lemma utf8_to_utf32_loop_statuses n :
  forall units out, (length units <= n)%nat ->
    let status := fst (utf8_to_utf32_loop units out) in
    status = success \/ status = trailing_without_leading
    \/ status = character_cut_off.
Proof.
  induction n as [|n IH]; intros units out Hlen.
  - destruct units; [|cbn in Hlen; lia]. now left.
  - destruct units as [|u0 units]; [now left|].
    cbn [utf8_to_utf32_loop]; cbn [length] in Hlen.
    repeat first [case_cond | case_list];
      first [ apply IH; cbn [length] in *; lia
            | right; left; reflexivity
            | right; right; reflexivity ].
Qed.

(** X7: [utf8_to_utf32] does not look at [comply_with_standard], and its
    status is [success], [trailing_without_leading] or
    [character_cut_off]; so the bytes ED A0 80 are decoded to the
    surrogate 0xD800 in strict mode too. *)
Theorem utf8_decoder_has_no_strict_mode (sv out : list Z) :
  utf8_to_utf32 sv out true = utf8_to_utf32 sv out false /\
  (exists status out',
      utf8_to_utf32 sv out true = Some (status, out') /\
      (status = success \/ status = trailing_without_leading
       \/ status = character_cut_off)) /\
  utf8_to_utf32 [0xED; 0xA0; 0x80] out true = Some (success, out ++ [0xD800]).
Proof.
  split; [reflexivity|]. split.
  - rewrite utf8_to_utf32_scan.
    destruct (utf8_to_utf32_loop sv out) as [status out'] eqn:Hloop.
    exists status, out'. split; [reflexivity|].
    change status with (fst (status, out')). rewrite <- Hloop.
    now apply (utf8_to_utf32_loop_statuses (length sv)).
  - rewrite utf8_to_utf32_scan. reflexivity.
Qed.

(** ** UTF-8 encoding *)

(** X8: [utf32_to_utf8] encodes a first code point up to 0x7F as itself,
    and one in 0x80..0x7FF as the two bytes 110xxxxx 10xxxxxx holding its
    top 5 and low 6 bits, in both modes. *)
Theorem one_and_two_byte_encode (cp : Z) (rest out : list Z) (strict : bool) :
  (0 <= cp <= 0x7F ->
   utf32_to_utf8 (cp :: rest) out strict
   = Some (utf32_to_utf8_loop false strict rest (out ++ [cp]))) /\
  (0x80 <= cp <= 0x7FF ->
   utf32_to_utf8 (cp :: rest) out strict
   = Some (utf32_to_utf8_loop false strict rest
             (out ++ [0xC0 + cp / 2^6; 0x80 + cp mod 2^6]))).
Proof.
  rewrite utf32_to_utf8_unfold. cbn [utf32_to_utf8_loop].
  split; intros Hcp; settle_tests; unfold push_back;
    rewrite <- ?app_assoc; cbn [app]; do 3 apply f_equal; units_eq.
Qed.

Lemma one_and_two_byte_encode_witness :
  utf32_to_utf8 [0x41] [] true = Some (success, [0x41]) /\
  utf32_to_utf8 [0xE9] [] true = Some (success, [0xC3; 0xA9]).
Proof.
  split.
  - rewrite (proj1 (one_and_two_byte_encode 0x41 [] [] true)) by lia.
    reflexivity.
  - rewrite (proj2 (one_and_two_byte_encode 0xE9 [] [] true)) by lia.
    reflexivity.
Defined.

Lemma utf32_to_utf8_step_accepted strict cp units out :
  utf8_accepts strict cp = true ->
  exists bytes,
    utf32_to_utf8_loop false strict (cp :: units) out
    = utf32_to_utf8_loop false strict units (out ++ bytes).
Proof.
  unfold utf8_accepts. intros Hcp. cbn [utf32_to_utf8_loop].
  destruct strict; cbn [negb andb orb] in *; settle_tests;
    unfold push_back; rewrite <- ?app_assoc; cbn [app];
    eexists; reflexivity.
Qed.

Lemma utf32_to_utf8_step_rejected strict cp units out :
  utf8_accepts strict cp = false ->
  utf32_to_utf8_loop false strict (cp :: units) out
  = (if cp >? 0x10FFFF then undefined_error else non_standard_encoding, []).
Proof.
  unfold utf8_accepts. intros Hcp. cbn [utf32_to_utf8_loop].
  destruct strict; cbn [negb andb orb] in *; settle_tests; reflexivity.
Qed.

Lemma utf32_to_utf8_loop_accepts strict units :
  forall out,
    fst (utf32_to_utf8_loop false strict units out) = success
    <-> forallb (utf8_accepts strict) units = true.
Proof.
  induction units as [|cp units IH]; intros out.
  - cbn. tauto.
  - cbn [forallb]. destruct (utf8_accepts strict cp) eqn:Hcp.
    + destruct (utf32_to_utf8_step_accepted strict cp units out Hcp)
        as [bytes ->].
      rewrite IH. cbn [andb]. tauto.
    + rewrite utf32_to_utf8_step_rejected by assumption.
      cbn [andb fst]. split; [|discriminate].
      now destruct (cp >? 0x10FFFF).
Qed.

(** X9: [utf32_to_utf8] succeeds on a non-empty input exactly when every
    code point is at most 0x7FF, or lies in 0x10000..0x10FFFF, or, in
    lenient mode only, is at most 0xD800: the strict mode rejects the
    whole three byte range, and the lenient mode the three byte values
    above 0xD800.  The first rejected code point makes the status
    [undefined_error] when it is above 0x10FFFF and
    [non_standard_encoding] otherwise. *)
Theorem utf8_encoder_acceptance (front : Z) (rest out : list Z)
    (strict : bool) :
  ((exists bytes,
       utf32_to_utf8 (front :: rest) out strict = Some (success, bytes))
   <-> forallb (utf8_accepts strict) (front :: rest) = true) /\
  (forall accepted cp rest',
      front :: rest = accepted ++ cp :: rest' ->
      forallb (utf8_accepts strict) accepted = true ->
      utf8_accepts strict cp = false ->
      utf32_to_utf8 (front :: rest) out strict
      = Some (if cp >? 0x10FFFF then undefined_error
              else non_standard_encoding, [])).
Proof.
  rewrite utf32_to_utf8_unfold. split.
  - rewrite <- (utf32_to_utf8_loop_accepts strict (front :: rest) out).
    destruct (utf32_to_utf8_loop false strict (front :: rest) out)
      as [status bytes].
    cbn [fst]. split.
    + intros [bytes' H]. congruence.
    + intros ->. now exists bytes.
  - intros accepted cp rest' -> Haccepted Hcp. f_equal.
    clear front rest. revert out.
    induction accepted as [|a accepted IH]; intros out.
    + now apply utf32_to_utf8_step_rejected.
    + cbn [forallb] in Haccepted. apply andb_true_iff in Haccepted.
      destruct Haccepted as [Ha Haccepted]. cbn [app].
      destruct (utf32_to_utf8_step_accepted strict a
                  (accepted ++ cp :: rest') out Ha) as [bytes ->].
      now apply IH.
Qed.

Lemma utf8_encoder_acceptance_witness :
  utf32_to_utf8 [0x41; 0x20AC; 0x110000] [] true
  = Some (non_standard_encoding, []) /\
  utf32_to_utf8 [0x41; 0x110000; 0x20AC] [] false
  = Some (undefined_error, []).
Proof.
  split.
  - apply (proj2 (utf8_encoder_acceptance 0x41 [0x20AC; 0x110000] [] true)
             [0x41] 0x20AC [0x110000]); reflexivity.
  - apply (proj2 (utf8_encoder_acceptance 0x41 [0x110000; 0x20AC] [] false)
             [0x41] 0x110000 [0x20AC]); reflexivity.
Defined.

(** ** UTF-16 encoding *)

Lemma utf32_to_utf16_step_accepted cp units out :
  cp < 0x110000 ->
  exists units16,
    utf32_to_utf16_loop false false (cp :: units) out
    = utf32_to_utf16_loop false false units (out ++ units16).
Proof.
  intros Hcp. cbn [utf32_to_utf16_loop]. rewrite andb_false_r.
  settle_tests; unfold push_back; rewrite <- ?app_assoc; cbn [app];
    eexists; reflexivity.
Qed.

Lemma utf32_to_utf16_step_rejected strict cp units out :
  0x110000 <= cp ->
  utf32_to_utf16_loop false strict (cp :: units) out = (undefined_error, []).
Proof.
  intros Hcp. cbn [utf32_to_utf16_loop]. settle_tests. reflexivity.
Qed.

Lemma utf32_to_utf16_loop_accepts units :
  forall out,
    fst (utf32_to_utf16_loop false false units out) = success
    <-> Forall (fun cp => cp < 0x110000) units.
Proof.
  induction units as [|cp units IH]; intros out.
  - cbn. split; [constructor|reflexivity].
  - destruct (Z.lt_ge_cases cp 0x110000) as [Hcp|Hcp].
    + destruct (utf32_to_utf16_step_accepted cp units out Hcp)
        as [units16 ->].
      rewrite IH. split; [now constructor|now inversion 1].
    + rewrite utf32_to_utf16_step_rejected by assumption. cbn [fst].
      split; [discriminate|]. inversion 1; lia.
Qed.

(** X10: the lenient [utf32_to_utf16] succeeds on a non-empty input
    exactly when every code point is below 0x110000; any code point from
    0x110000 on, after code points below it, makes it fail with
    [undefined_error] and a cleared output. *)
Theorem utf16_encoder_acceptance (front : Z) (rest out : list Z) :
  ((exists units,
       utf32_to_utf16 (front :: rest) out false = Some (success, units))
   <-> Forall (fun cp => cp < 0x110000) (front :: rest)) /\
  (forall accepted cp rest',
      front :: rest = accepted ++ cp :: rest' ->
      Forall (fun cp => cp < 0x110000) accepted ->
      0x110000 <= cp ->
      utf32_to_utf16 (front :: rest) out false
      = Some (undefined_error, [])).
Proof.
  rewrite utf32_to_utf16_unfold. split.
  - rewrite <- (utf32_to_utf16_loop_accepts (front :: rest) out).
    destruct (utf32_to_utf16_loop false false (front :: rest) out)
      as [status units].
    cbn [fst]. split.
    + intros [units' H]. congruence.
    + intros ->. now exists units.
  - intros accepted cp rest' -> Haccepted Hcp. f_equal.
    clear front rest. revert out.
    induction Haccepted as [|a accepted Ha _ IH]; intros out.
    + now apply utf32_to_utf16_step_rejected.
    + cbn [app].
      destruct (utf32_to_utf16_step_accepted a
                  (accepted ++ cp :: rest') out Ha) as [units16 ->].
      apply IH.
Qed.

Lemma utf16_encoder_acceptance_witness :
  utf32_to_utf16 [0xD800; 0x10348; 0x110000; 0x41] [0x42] false
  = Some (undefined_error, []).
Proof.
  apply (proj2 (utf16_encoder_acceptance 0xD800 [0x10348; 0x110000; 0x41]
                  [0x42])
           [0xD800; 0x10348] 0x110000 [0x41]).
  - reflexivity.
  - repeat constructor; lia.
  - lia.
Defined.

Lemma utf32_to_utf16_loop_bmp units :
  Forall (fun cp => 0 <= cp < 0x10000) units ->
  forall out,
    utf32_to_utf16_loop false false units out = (success, out ++ units).
Proof.
  induction 1 as [|cp units Hcp _ IH]; intros out.
  - cbn. now rewrite app_nil_r.
  - cbn [utf32_to_utf16_loop]. rewrite andb_false_r. settle_tests.
    rewrite IH. unfold push_back. rewrite <- app_assoc. cbn [app].
    replace (to_uint16 cp) with cp by arith. reflexivity.
Qed.

(** X11: in lenient mode a non-empty sequence of code points below 0x10000
    is encoded to UTF-16 as the same values, surrogate values 0xD800 to
    0xDFFF included. *)
Theorem bmp_encoded_verbatim (front : Z) (rest out : list Z) :
  Forall (fun cp => 0 <= cp < 0x10000) (front :: rest) ->
  utf32_to_utf16 (front :: rest) out false
  = Some (success, out ++ front :: rest).
Proof.
  intros Hbmp. rewrite utf32_to_utf16_unfold.
  now rewrite utf32_to_utf16_loop_bmp.
Qed.

Lemma bmp_encoded_verbatim_witness :
  utf32_to_utf16 [0x41; 0xD800; 0xFFFF] [] false
  = Some (success, [0x41; 0xD800; 0xFFFF]).
Proof.
  apply (bmp_encoded_verbatim 0x41 [0xD800; 0xFFFF] []).
  repeat constructor; lia.
Defined.

(** X12: in lenient mode a first code point in 0x10000..0x10FFFF is
    encoded to UTF-16 as a high surrogate holding the top 10 bits of its
    offset from 0x10000, followed by a low surrogate holding the low 10
    bits. *)
Theorem surrogate_pair_encode (cp : Z) (rest out : list Z) :
  0x10000 <= cp <= 0x10FFFF ->
  let high := 0xD800 + Z.shiftr (cp - 0x10000) 10 in
  let low := 0xDC00 + Z.land (cp - 0x10000) 0x3FF in
  is_high_surrogate high = true /\ is_low_surrogate low = true /\
  utf32_to_utf16 (cp :: rest) out false
  = Some (utf32_to_utf16_loop false false rest (out ++ [high; low])).
Proof.
  intros Hcp high low. subst high low. split; [|split].
  - unfold is_high_surrogate. apply Z.eqb_eq. arith.
  - unfold is_low_surrogate. apply Z.eqb_eq. arith.
  - rewrite utf32_to_utf16_unfold. cbn [utf32_to_utf16_loop].
    rewrite andb_false_r. settle_tests.
    unfold push_back. rewrite <- app_assoc. cbn [app].
    do 3 apply f_equal. units_eq.
Qed.

Lemma surrogate_pair_encode_witness :
  utf32_to_utf16 [0x10348] [] false = Some (success, [0xD800; 0xDF48]).
Proof.
  destruct (surrogate_pair_encode 0x10348 [] []) as (_ & _ & H); [lia|].
  rewrite H. reflexivity.
Defined.

(** ** UTF-16 decoding *)

Lemma utf16_units_decode_any strict cp units utf32_s :
  lenient_scalar cp ->
  utf16_to_utf32_loop false strict (utf16_units cp ++ units) false utf32_s
  = utf16_to_utf32_loop false strict units false (utf32_s ++ [cp]).
Proof.
  unfold lenient_scalar, in_surrogate_range. intros [Hrange Hsur].
  unfold utf16_units. case_cond; prop_of_bool; cbn [app].
  - rewrite utf16_step_pair.
    + unfold push_back, utf16_unit_read. do 2 apply f_equal. units_eq.
    + unfold utf16_unit_read, is_high_surrogate. apply Z.eqb_eq. arith.
    + unfold utf16_unit_read, is_low_surrogate. apply Z.eqb_eq. arith.
  - rewrite utf16_step_plain; [reflexivity|].
    unfold utf16_unit_read, is_high_surrogate. apply Z.eqb_neq. arith.
Qed.

Lemma utf16_units_decode_any_all strict code_points :
  Forall lenient_scalar code_points ->
  forall utf32_s,
    utf16_to_utf32_loop false strict (flat_map utf16_units code_points)
      false utf32_s
    = (success, utf32_s ++ code_points).
Proof.
  induction 1 as [|cp code_points Hcp _ IH]; intros utf32_s.
  - cbn. now rewrite app_nil_r.
  - cbn [flat_map]. rewrite utf16_units_decode_any by assumption.
    rewrite IH. now rewrite <- app_assoc.
Qed.

(** X13: what the lenient [utf32_to_utf16] emits for a non-empty sequence
    of code points up to 0x10FFFF, none a surrogate and the first not
    0xFFFE, is accepted by the strict [utf16_to_utf32], which gives the
    sequence back after the prior content of its output. *)
Theorem strict_decode_of_encoded (front : Z) (rest out : list Z) :
  Forall lenient_scalar (front :: rest) -> front <> 0xFFFE ->
  exists units,
    utf32_to_utf16 (front :: rest) [] false = Some (success, units) /\
    utf16_to_utf32 units out true = Some (success, out ++ front :: rest).
Proof.
  intros Hscalars Hmark.
  exists (flat_map utf16_units (front :: rest)). split.
  - rewrite utf32_to_utf16_unfold. now rewrite utf32_to_utf16_scalars.
  - destruct (utf16_units_front front rest)
      as (unit0 & units & Hunits & Hbom);
      [now inversion Hscalars | assumption |].
    unfold utf16_to_utf32. rewrite Hunits. cbn [nth_error].
    rewrite Hbom, <- Hunits.
    now rewrite utf16_units_decode_any_all.
Qed.

Lemma strict_decode_of_encoded_witness :
  exists units,
    utf32_to_utf16 [0x10348; 0x41; 0xFFFE] [] false = Some (success, units) /\
    utf16_to_utf32 units [0x42] true
    = Some (success, [0x42; 0x10348; 0x41; 0xFFFE]).
Proof.
  apply (strict_decode_of_encoded 0x10348 [0x41; 0xFFFE] [0x42]).
  - repeat constructor; unfold in_surrogate_range; lia.
  - lia.
Defined.

Lemma utf16_to_utf32_loop_plain strict units :
  Forall (fun u => u < 0xD800 \/ 0xDBFF < u) units ->
  forall out,
    utf16_to_utf32_loop false strict units false out
    = (success, out ++ units).
Proof.
  induction 1 as [|u units Hu _ IH]; intros out.
  - cbn. now rewrite app_nil_r.
  - rewrite utf16_step_plain.
    + rewrite IH. unfold push_back, utf16_unit_read.
      now rewrite <- app_assoc.
    + unfold utf16_unit_read, is_high_surrogate. apply Z.eqb_neq. arith.
Qed.

(** X14: a non-empty UTF-16 buffer without a unit in 0xD800..0xDBFF, and
    not starting with 0xFFFE, is decoded to the same values in both
    modes: a low surrogate 0xDC00..0xDFFF that follows no high surrogate
    is accepted in strict mode too. *)
Theorem units_without_high_surrogate_verbatim (front : Z)
    (rest out : list Z) (strict : bool) :
  Forall (fun u => u < 0xD800 \/ 0xDBFF < u) (front :: rest) ->
  front <> 0xFFFE ->
  utf16_to_utf32 (front :: rest) out strict
  = Some (success, out ++ front :: rest).
Proof.
  intros Hplain Hmark. unfold utf16_to_utf32. cbn [nth_error].
  replace (is_little_endian (utf16_bom front)) with false.
  - now rewrite utf16_to_utf32_loop_plain.
  - unfold utf16_bom. repeat case_cond; prop_of_bool; try reflexivity.
    exfalso. arith.
Qed.

Lemma units_without_high_surrogate_verbatim_witness :
  utf16_to_utf32 [0xDC00; 0x41; 0xFEFF] [] true
  = Some (success, [0xDC00; 0x41; 0xFEFF]).
Proof.
  apply (units_without_high_surrogate_verbatim 0xDC00 [0x41; 0xFEFF] [] true).
  - repeat constructor; lia.
  - lia.
Defined.

Lemma utf16_to_utf32_loop_strict_or_lenient reverse units :
  forall flag out,
    utf16_to_utf32_loop reverse true units flag out
    = utf16_to_utf32_loop reverse false units flag out
    \/ utf16_to_utf32_loop reverse true units flag out
       = (non_standard_encoding, []).
Proof.
  induction units as [|u0 units IH]; intros flag out.
  - now left.
  - cbn [utf16_to_utf32_loop]. destruct flag; [apply IH|].
    destruct units as [|u1 units]; repeat case_cond;
      first [ apply IH | now left | now right ].
Qed.

(** X15: on a non-empty buffer the lenient [utf16_to_utf32] always
    succeeds, and the strict one either returns the same result or fails
    with [non_standard_encoding] and a cleared output; it has no other
    status. *)
Theorem utf16_decoder_statuses (front : Z) (rest out : list Z) :
  exists fresh,
    utf16_to_utf32 (front :: rest) out false = Some (success, out ++ fresh) /\
    (utf16_to_utf32 (front :: rest) out true = Some (success, out ++ fresh)
     \/ utf16_to_utf32 (front :: rest) out true
        = Some (non_standard_encoding, [])).
Proof.
  unfold utf16_to_utf32. cbn [nth_error].
  set (reverse := is_little_endian (utf16_bom front)).
  exists (snd (utf16_to_utf32_loop reverse false (front :: rest) false [])).
  rewrite <- utf16_lenient_appends. split; [reflexivity|].
  destruct (utf16_to_utf32_loop_strict_or_lenient reverse (front :: rest)
              false out) as [-> | ->]; [now left | now right].
Qed.

Lemma utf16_reverse_endianness_range u : is_char16 (utf16_reverse_endianness u).
Proof. unfold is_char16, utf16_reverse_endianness. arith. Qed.

Lemma utf16_unit_read_range reverse u :
  is_char16 u -> is_char16 (utf16_unit_read reverse u).
Proof.
  destruct reverse; cbn; [intros _; apply utf16_reverse_endianness_range|].
  trivial.
Qed.

Lemma utf16_pair_range this next :
  is_char16 this -> is_char16 next ->
  is_high_surrogate this = true -> is_low_surrogate next = true ->
  in_unicode_range
    (to_uint32
       (to_uint32 (Z.shiftl (this - high_surrogate_start) 10)
        + to_uint16 (next - low_surrogate_start)
        + supplementary_plane_offset)).
Proof.
  unfold is_char16, is_high_surrogate, is_low_surrogate, in_unicode_range.
  intros Hthis Hnext Hhigh Hlow. prop_of_bool. arith.
Qed.

Lemma in_unicode_range_push out cp :
  Forall in_unicode_range out -> is_char16 cp ->
  Forall in_unicode_range (push_back out cp).
Proof.
  intros Hout Hcp. apply Forall_app. split; [assumption|].
  repeat constructor; unfold is_char16 in Hcp; lia.
Qed.

Lemma utf16_to_utf32_loop_range reverse strict units :
  Forall is_char16 units ->
  forall flag out,
    Forall in_unicode_range out ->
    Forall in_unicode_range
      (snd (utf16_to_utf32_loop reverse strict units flag out)).
Proof.
  induction 1 as [|u0 units Hu0 Hunits IH]; intros flag out Hout.
  - assumption.
  - destruct flag; [now apply IH|].
    pose proof (utf16_unit_read_range reverse u0 Hu0) as Hread.
    destruct (is_high_surrogate (utf16_unit_read reverse u0)) eqn:Hhigh.
    + destruct units as [|u1 units].
      * rewrite utf16_step_last by assumption.
        destruct strict; [constructor|].
        now apply in_unicode_range_push.
      * assert (Hu1 : is_char16 (utf16_unit_read reverse u1))
          by (apply utf16_unit_read_range; now inversion Hunits).
        destruct (is_low_surrogate (utf16_unit_read reverse u1)) eqn:Hlow.
        -- rewrite utf16_step_pair by assumption.
           rewrite <- (utf16_step_skip reverse strict u1).
           apply IH. apply Forall_app. split; [assumption|].
           apply Forall_cons; [|constructor]. now apply utf16_pair_range.
        -- rewrite utf16_step_lone by assumption.
           destruct strict; [constructor|].
           apply IH. now apply in_unicode_range_push.
    + rewrite utf16_step_plain by assumption.
      apply IH. now apply in_unicode_range_push.
Qed.

(** X16: whatever the mode and the byte order, [utf16_to_utf32] decodes a
    buffer of 16-bit units to values between 0 and 0x10FFFF only. *)
Theorem utf16_decoded_in_unicode_range (sv : list Z) (strict : bool)
    (status : status_e) (code_points : list Z) :
  Forall is_char16 sv ->
  utf16_to_utf32 sv [] strict = Some (status, code_points) ->
  Forall in_unicode_range code_points.
Proof.
  intros Hsv. unfold utf16_to_utf32.
  destruct (nth_error sv 0); [|discriminate].
  intros H. apply some_eq in H.
  change code_points with (snd (status, code_points)). rewrite <- H.
  apply utf16_to_utf32_loop_range; [assumption|constructor].
Qed.

Lemma utf16_decoded_in_unicode_range_witness :
  Forall in_unicode_range [0x10FFFF; 0xDBFF; 0xFFFF].
Proof.
  apply (utf16_decoded_in_unicode_range [0xDBFF; 0xDFFF; 0xDBFF; 0xFFFF]
           false success [0x10FFFF; 0xDBFF; 0xFFFF]).
  - repeat constructor; unfold is_char16; lia.
  - reflexivity.
Defined.

(** ** Code units emitted by the encoders *)

Lemma to_uint8_range z : is_char8 (to_uint8 z).
Proof. unfold is_char8. arith. Qed.

Lemma to_uint16_range z : is_char16 (to_uint16 z).
Proof. unfold is_char16. arith. Qed.

Lemma utf32_to_utf8_loop_bytes reverse strict units :
  forall out,
    Forall is_char8 out ->
    Forall is_char8 (snd (utf32_to_utf8_loop reverse strict units out)).
Proof.
  induction units as [|u0 units IH]; intros out Hout.
  - assumption.
  - cbn [utf32_to_utf8_loop]. repeat case_cond;
      try (cbn [snd]; constructor);
      apply IH; unfold push_back;
      repeat (apply Forall_app; split;
              [|apply Forall_cons; [apply to_uint8_range|constructor]]);
      assumption.
Qed.

Lemma utf32_to_utf16_loop_units reverse strict units :
  forall out,
    Forall is_char16 out ->
    Forall is_char16 (snd (utf32_to_utf16_loop reverse strict units out)).
Proof.
  induction units as [|u0 units IH]; intros out Hout.
  - assumption.
  - cbn [utf32_to_utf16_loop]. repeat case_cond;
      try (cbn [snd]; constructor);
      apply IH; unfold push_back;
      repeat (apply Forall_app; split;
              [|apply Forall_cons; [apply to_uint16_range|constructor]]);
      assumption.
Qed.

(** X17: whatever the input and the mode, [utf32_to_utf8] puts only
    values below 0x100 in its output and [utf32_to_utf16] only values
    below 0x10000. *)
Theorem encoders_emit_code_units (sv : list Z) (strict : bool)
    (status : status_e) (units : list Z) :
  (utf32_to_utf8 sv [] strict = Some (status, units) ->
   Forall is_char8 units) /\
  (utf32_to_utf16 sv [] strict = Some (status, units) ->
   Forall is_char16 units).
Proof.
  unfold utf32_to_utf8, utf32_to_utf16.
  destruct (nth_error sv 0); [|split; discriminate].
  split; intros H; apply some_eq in H;
    change units with (snd (status, units)); rewrite <- H.
  - apply utf32_to_utf8_loop_bytes. constructor.
  - apply utf32_to_utf16_loop_units. constructor.
Qed.

Lemma encoders_emit_code_units_witness :
  Forall is_char8 [0xC0; 0x90; 0x8D; 0x88] /\
  Forall is_char16 [0xD800; 0xDF48].
Proof.
  split.
  - apply (proj1 (encoders_emit_code_units [0x10348] false success
                    [0xC0; 0x90; 0x8D; 0x88])).
    reflexivity.
  - apply (proj2 (encoders_emit_code_units [0x10348] false success
                    [0xD800; 0xDF48])).
    reflexivity.
Defined.

(** ** The chained conversions *)

(** X18: the strict [utf8_to_utf16] never succeeds: whatever the input,
    it reads outside the decoded code points (when there is none) or
    returns a failure and leaves the caller's output as it was. *)
Theorem strict_utf8_to_utf16_never_succeeds (sv out : list Z) :
  utf8_to_utf16 sv out true = None \/
  exists status,
    status <> success /\ utf8_to_utf16 sv out true = Some (status, out).
Proof.
  unfold utf8_to_utf16. rewrite utf8_to_utf32_scan.
  destruct (utf8_to_utf32_loop sv []) as [[] code_points];
    try (right; eexists; split; [|reflexivity]; discriminate).
  cbn [status_lt status_value Z.ltb Z.compare Pos.compare Pos.compare_cont].
  destruct code_points as [|front rest]; [now left|right].
  rewrite utf32_to_utf16_unfold. cbn [utf32_to_utf16_loop].
  rewrite is_correct_code_point_false. cbn [negb andb].
  destruct (front >=? supplementary_plane_end);
    eexists; (split; [|reflexivity]); discriminate.
Qed.

Lemma utf16_first_unit_emits reverse strict u units :
  let r := utf16_to_utf32_loop reverse strict (u :: units) false [] in
  fst r = success -> snd r <> [].
Proof.
  cbn [utf16_to_utf32_loop]. destruct units as [|u1 units];
    repeat case_cond; try discriminate;
    rewrite utf16_to_utf32_loop_onto; unfold onto;
    match goal with
    | |- context [utf16_to_utf32_loop ?r ?s ?l ?f []] =>
      destruct (utf16_to_utf32_loop r s l f []) as [[] fresh]
    end; cbn [fst snd]; try discriminate; intros _; discriminate.
Qed.

Lemma utf8_to_utf32_loop_dropped units :
  Forall (fun b => 0xF8 <= b <= 0xFF) units ->
  forall out, utf8_to_utf32_loop units out = (success, out).
Proof.
  induction 1 as [|b units Hb _ IH]; intros out; [reflexivity|].
  cbn [utf8_to_utf32_loop]. settle_tests. apply IH.
Qed.

(** X19: the chained conversions hand their code points to an encoder
    that reads element 0 unguarded.  [utf16_to_utf8] reads out of bounds
    exactly on the empty buffer; [utf8_to_utf16] does on every buffer
    made of bytes 0xF8..0xFF only, the empty one included, since these
    bytes are decoded to no code point. *)
Theorem chained_out_of_bounds (sv out : list Z) (strict : bool) :
  (utf16_to_utf8 sv out strict = None <-> sv = []) /\
  (Forall (fun b => 0xF8 <= b <= 0xFF) sv ->
   utf8_to_utf16 sv out strict = None).
Proof.
  split.
  - split; [|intros ->; reflexivity].
    destruct sv as [|front rest]; [reflexivity|].
    unfold utf16_to_utf8, utf16_to_utf32. cbn [nth_error].
    pose proof (utf16_first_unit_emits
                  (is_little_endian (utf16_bom front)) strict front rest)
      as Hemits. cbn zeta in Hemits.
    destruct (utf16_to_utf32_loop _ strict (front :: rest) false [])
      as [[] code_points]; try discriminate.
    cbn [status_lt status_value Z.ltb Z.compare Pos.compare Pos.compare_cont].
    destruct code_points as [|cp code_points];
      [now exfalso; apply Hemits|].
    rewrite utf32_to_utf8_unfold.
    destruct (utf32_to_utf8_loop false strict (cp :: code_points) [])
      as [status bytes].
    destruct (status_lt status success); discriminate.
  - intros Hdropped. unfold utf8_to_utf16.
    rewrite utf8_to_utf32_scan, utf8_to_utf32_loop_dropped by assumption.
    reflexivity.
Qed.

Lemma chained_out_of_bounds_witness :
  utf16_to_utf8 [] [0x41] true = None /\
  utf8_to_utf16 [0xFF; 0xF8] [0x41] false = None.
Proof.
  destruct (chained_out_of_bounds [] [0x41] true) as [[_ H16] _].
  destruct (chained_out_of_bounds [0xFF; 0xF8] [0x41] false) as [_ H8].
  split; [now apply H16|].
  apply H8. repeat constructor; lia.
Defined.

Lemma utf32_to_utf16_loop_lenient_failure units :
  forall out,
    fst (utf32_to_utf16_loop false false units out) <> success ->
    utf32_to_utf16_loop false false units out = (undefined_error, []).
Proof.
  induction units as [|cp units IH]; intros out.
  - cbn. congruence.
  - destruct (Z.lt_ge_cases cp 0x110000) as [Hcp|Hcp].
    + destruct (utf32_to_utf16_step_accepted cp units out Hcp)
        as [units16 ->].
      apply IH.
    + now rewrite utf32_to_utf16_step_rejected.
Qed.

(** X20: the lenient [utf8_to_utf16] on a buffer that [utf8_to_utf32]
    decodes to at least one code point: when all of them are below
    0x10000 it succeeds and replaces the caller's output by these values;
    when one of them is 0x110000 or more, as are the values decoded from
    four byte sequences, it fails with [undefined_error] and leaves the
    caller's output as it was. *)
Theorem utf8_to_utf16_lenient (sv out : list Z) (front : Z) (rest : list Z) :
  utf8_to_utf32 sv [] false = Some (success, front :: rest) ->
  (Forall (fun cp => 0 <= cp < 0x10000) (front :: rest) ->
   utf8_to_utf16 sv out false = Some (success, front :: rest)) /\
  (~ Forall (fun cp => cp < 0x110000) (front :: rest) ->
   utf8_to_utf16 sv out false = Some (undefined_error, out)).
Proof.
  intros Hdecode. unfold utf8_to_utf16. rewrite Hdecode.
  cbn [status_lt status_value Z.ltb Z.compare Pos.compare Pos.compare_cont].
  rewrite utf32_to_utf16_unfold. split.
  - intros Hbmp. now rewrite utf32_to_utf16_loop_bmp.
  - intros Hhigh. rewrite utf32_to_utf16_loop_lenient_failure; [reflexivity|].
    now rewrite utf32_to_utf16_loop_accepts.
Qed.

Lemma utf8_to_utf16_lenient_witness :
  utf8_to_utf16 [0x41; 0xE2; 0x82; 0xAC] [0x42] false
  = Some (success, [0x41; 0x20AC]) /\
  utf8_to_utf16 [0x41; 0xF0; 0x90; 0x8D; 0x88] [0x42] false
  = Some (undefined_error, [0x42]).
Proof.
  split.
  - apply (proj1 (utf8_to_utf16_lenient [0x41; 0xE2; 0x82; 0xAC] [0x42]
                    0x41 [0x20AC] eq_refl)).
    repeat constructor; lia.
  - apply (proj2 (utf8_to_utf16_lenient [0x41; 0xF0; 0x90; 0x8D; 0x88] [0x42]
                    0x41 [0x3C10348] eq_refl)).
    intros H. inversion H as [|? ? _ H']. inversion H' as [|? ? Hcp _]. lia.
Defined.

Lemma utf32_to_utf8_loop_ascii strict units :
  Forall (fun b => 0 <= b < 0x80) units ->
  forall out,
    utf32_to_utf8_loop false strict units out = (success, out ++ units).
Proof.
  induction 1 as [|b units Hb _ IH]; intros out.
  - cbn. now rewrite app_nil_r.
  - cbn [utf32_to_utf8_loop]. settle_tests.
    rewrite IH. unfold push_back. rewrite <- app_assoc. cbn [app].
    replace (to_uint8 b) with b by arith. reflexivity.
Qed.

Lemma ascii_is_bmp units :
  Forall (fun b => 0 <= b < 0x80) units ->
  Forall (fun cp => 0 <= cp < 0x10000) units
  /\ Forall (fun u => u < 0xD800 \/ 0xDBFF < u) units.
Proof.
  induction 1 as [|b units Hb _ [IH1 IH2]]; split; constructor;
    try assumption; lia.
Qed.

(** X21: a non-empty text of values below 0x80 goes unchanged through
    [utf16_to_utf8] in both modes and through the lenient
    [utf8_to_utf16]; the result replaces the prior content of the
    caller's output. *)
Theorem ascii_through_chained (front : Z) (rest out : list Z) (strict : bool) :
  Forall (fun b => 0 <= b < 0x80) (front :: rest) ->
  utf16_to_utf8 (front :: rest) out strict = Some (success, front :: rest) /\
  utf8_to_utf16 (front :: rest) out false = Some (success, front :: rest).
Proof.
  intros Hascii. destruct (ascii_is_bmp _ Hascii) as [Hbmp Hplain]. split.
  - unfold utf16_to_utf8, utf16_to_utf32. cbn [nth_error].
    replace (is_little_endian (utf16_bom front)) with false.
    + rewrite utf16_to_utf32_loop_plain by assumption. cbn [app].
      cbn [status_lt status_value Z.ltb Z.compare Pos.compare
             Pos.compare_cont].
      rewrite utf32_to_utf8_unfold.
      now rewrite utf32_to_utf8_loop_ascii.
    + inversion Hascii as [|? ? Hfront _]. unfold utf16_bom.
      repeat case_cond; prop_of_bool; try reflexivity. exfalso. arith.
  - unfold utf8_to_utf16. rewrite utf8_to_utf32_scan.
    rewrite utf8_to_utf32_loop_ascii by assumption. cbn [app].
    cbn [status_lt status_value Z.ltb Z.compare Pos.compare Pos.compare_cont].
    rewrite utf32_to_utf16_unfold.
    now rewrite utf32_to_utf16_loop_bmp.
Qed.

Lemma ascii_through_chained_witness :
  utf16_to_utf8 [0x48; 0x69] [0x42] true = Some (success, [0x48; 0x69]) /\
  utf8_to_utf16 [0x48; 0x69] [0x42] false = Some (success, [0x48; 0x69]).
Proof.
  apply (ascii_through_chained 0x48 [0x69] [0x42] true).
  repeat constructor; lia.
Defined.

(** ** Little-endian UTF-16 input *)

Lemma utf16_to_utf32_loop_reversed_ascii strict text :
  Forall (fun c => 0 <= c < 0x80) text ->
  forall out,
    utf16_to_utf32_loop true strict (map (fun c => c * 0x100) text) false out
    = (success, out ++ text).
Proof.
  induction 1 as [|c text Hc _ IH]; intros out.
  - cbn. now rewrite app_nil_r.
  - cbn [map]. rewrite utf16_step_plain.
    + rewrite IH. unfold push_back, utf16_unit_read.
      rewrite <- app_assoc. cbn [app].
      replace (utf16_reverse_endianness (c * 0x100)) with c;
        [reflexivity|].
      unfold utf16_reverse_endianness. arith.
    + unfold utf16_unit_read, is_high_surrogate, utf16_reverse_endianness.
      apply Z.eqb_neq. arith.
Qed.

(** X22: a little-endian buffer made of the reversed mark 0xFFFE and of
    units [c * 0x100] for values [c] below 0x80 is decoded, in both modes,
    to 0xFDFF followed by these values: the text is byte-swapped as
    meant, the mark itself is not turned into 0xFEFF. *)
Theorem little_endian_ascii_decoded (text out : list Z) (strict : bool) :
  Forall (fun c => 0 <= c < 0x80) text ->
  utf16_to_utf32 (0xFFFE :: map (fun c => c * 0x100) text) out strict
  = Some (success, out ++ 0xFDFF :: text).
Proof.
  intros Htext. unfold utf16_to_utf32. cbn [nth_error].
  change (is_little_endian (utf16_bom 0xFFFE)) with true.
  rewrite utf16_step_plain by reflexivity.
  rewrite utf16_to_utf32_loop_reversed_ascii by assumption.
  unfold push_back. rewrite <- app_assoc. reflexivity.
Qed.

Lemma little_endian_ascii_decoded_witness :
  utf16_to_utf32 [0xFFFE; 0x4800; 0x6900] [] true
  = Some (success, [0xFDFF; 0x48; 0x69]).
Proof.
  apply (little_endian_ascii_decoded [0x48; 0x69] [] true).
  repeat constructor; lia.
Defined.
